(** * music-downloader: candidate scoring and job orchestration

    A shallow embedding of [debug_ytmusic_scoring.py] (the five-signal
    candidate scorer) and of the job bookkeeping of [backend/app.py]
    (per-track progress records, album aggregation, retrieval endpoint).

    Conventions of the embedding.
    - Python [str] is [string]; one [ascii] is one character, so the model
      is exact on ASCII text.  The few non-ASCII literals of the source
      (dashes, CJK markers) are written as their UTF-8 bytes, for which
      substring search and replacement coincide with the code-point
      versions.
    - Python [float] is [Q]: the arithmetic of the scorer is read as exact
      rational arithmetic.  Durations are integral milliseconds and
      seconds, so every comparison against a bucket boundary is decided at
      a distance of at least 1/1000 from it.
    - Python [dict] stores are [gmap string _]; records written into them
      are Rocq records whose optional keys are [option] fields.
    - Calls into collaborators (Spotify, YouTube, tagging, Navidrome, the
      file system) are outcomes supplied by an oracle record: a returned
      value or a raised exception. *)

From stdpp Require Import gmap strings.
From Stdlib Require Import String Ascii List ZArith QArith Qabs Qminmax Qround.
From Stdlib Require Import Lia Lqa Bool Sorted Permutation.
Import ListNotations.

Local Open Scope string_scope.

(** ** Python built-ins used by the sources *)

Module Py.

(** [str.isspace] on one ASCII character: TAB..CR, FS..US and the space. *)
Definition isspace (c : ascii) : bool :=
  let n := N_of_ascii c in
  (((9 <=? n) && (n <=? 13)) || ((28 <=? n) && (n <=? 32)))%N.

Definition isdigit (c : ascii) : bool :=
  let n := N_of_ascii c in ((48 <=? n) && (n <=? 57))%N.

Definition digit_value (c : ascii) : Z := Z.of_N (N_of_ascii c) - 48.

Fixpoint lstrip (s : string) : string :=
  match s with
  | String c s' => if isspace c then lstrip s' else s
  | EmptyString => EmptyString
  end.

Fixpoint rstrip (s : string) : string :=
  match s with
  | String c s' =>
      match rstrip s' with
      | EmptyString => if isspace c then EmptyString else String c EmptyString
      | r => String c r
      end
  | EmptyString => EmptyString
  end.

(** [s.strip()] *)
Definition strip (s : string) : string := rstrip (lstrip s).

(** [s.split(sep)] for a one-character separator: always at least one part. *)
Fixpoint split (sep : ascii) (s : string) : list string :=
  match s with
  | EmptyString => [EmptyString]
  | String c s' =>
      if Ascii.eqb c sep then EmptyString :: split sep s'
      else match split sep s' with
           | h :: t => String c h :: t
           | [] => [String c EmptyString]
           end
  end.

(** The digit part of an integer literal: decimal digits, single
    underscores allowed between two digits only. *)
Fixpoint int_digits (s : string) (acc : Z) (after_digit : bool) : option Z :=
  match s with
  | EmptyString => if after_digit then Some acc else None
  | String c s' =>
      if isdigit c then int_digits s' (acc * 10 + digit_value c) true
      else if Ascii.eqb c "_" then
        if after_digit then int_digits s' acc false else None
      else None
  end.

(** [int(s)]: [None] stands for the [ValueError] the call raises. *)
Definition int (s : string) : option Z :=
  match strip s with
  | String "+" r => int_digits r 0 false
  | String "-" r => option_map Z.opp (int_digits r 0 false)
  | t => int_digits t 0 false
  end.

(** [sub in s] on strings. *)
Fixpoint contains (sub s : string) : bool :=
  String.prefix sub s ||
  match s with
  | EmptyString => false
  | String _ s' => contains sub s'
  end.

(** [s.lower()] (ASCII letters). *)
Definition lower_char (c : ascii) : ascii :=
  let n := N_of_ascii c in
  if ((65 <=? n) && (n <=? 90))%N then ascii_of_N (n + 32) else c.

Fixpoint lower (s : string) : string :=
  match s with
  | EmptyString => EmptyString
  | String c s' => String (lower_char c) (lower s')
  end.

(** [s[n:]] *)
Fixpoint drop (n : nat) (s : string) : string :=
  match n, s with
  | O, _ => s
  | S n', String _ s' => drop n' s'
  | S _, EmptyString => EmptyString
  end.

(** [s.replace(old, new)]: left to right, non-overlapping, the result is
    not rescanned.  [skip] counts the characters of the current match that
    are still to be passed over.  Only non-empty patterns occur in the
    sources. *)
Fixpoint replace_skip (old new s : string) (skip : nat) : string :=
  match s with
  | EmptyString => EmptyString
  | String c s' =>
      match skip with
      | S k => replace_skip old new s' k
      | O =>
          if String.prefix old s
          then new ++ replace_skip old new s' (String.length old - 1)
          else String c (replace_skip old new s' 0)
      end
  end.

Definition replace (old new s : string) : string := replace_skip old new s 0.

(** A stable sort by a rational key in descending order: the model of
    [list.sort(key=..., reverse=True)] and [sorted(..., reverse=True)],
    both of which keep elements with equal keys in their original order. *)
Section SortDesc.
Context {A : Type} (key : A -> Q).

(** [x] comes from in front of every element of [l]: it passes the
    strictly greater keys and stops in front of the first key that is
    not greater, hence in front of the elements with an equal key. *)
Fixpoint insert_desc (x : A) (l : list A) : list A :=
  match l with
  | [] => [x]
  | y :: l' =>
      if Qle_bool (key y) (key x) then x :: l
      else y :: insert_desc x l'
  end.

Fixpoint sort_desc (l : list A) : list A :=
  match l with
  | [] => []
  | x :: l' => insert_desc x (sort_desc l')
  end.
End SortDesc.

End Py.

(** ** [difflib.SequenceMatcher(None, a, b).ratio()]

    The standard-library matcher the similarity signal is built on, with
    no junk predicate and the default [autojunk=True]. *)

Module Difflib.

Definition indices_of (c : ascii) (b : list ascii) : list nat :=
  map fst (filter (fun p => Ascii.eqb (snd p) c) (combine (seq 0 (length b)) b)).

(** [b2j[c]] after [__chain_b]: the ascending positions of [c] in [b], or
    nothing for a popular character (more than [n // 100 + 1] occurrences
    in a [b] of at least 200 characters). *)
Definition b2j (b : list ascii) (c : ascii) : list nat :=
  let n := length b in
  let idxs := indices_of c b in
  if (200 <=? n)%nat && (n / 100 + 1 <? length idxs)%nat then [] else idxs.

Definition j2len_get (j2len : list (nat * nat)) (j : nat) : nat :=
  match find (fun p => (fst p =? j)%nat) j2len with
  | Some p => snd p
  | None => 0%nat
  end.

(** The body of [for j in b2j.get(a[i], nothing)] for one [i]. *)
Definition scan_row (i blo bhi : nat) (j2len : list (nat * nat))
    (js : list nat) (best : nat * nat * nat)
  : list (nat * nat) * (nat * nat * nat) :=
  fold_left
    (fun st j =>
       let '(newj2len, (besti, bestj, bestsize)) := st in
       if (j <? blo)%nat || (bhi <=? j)%nat then st
       else
         let k := (match j with O => 0 | S j' => j2len_get j2len j' end + 1)%nat in
         ((j, k) :: newj2len,
          if (bestsize <? k)%nat then (i + 1 - k, j + 1 - k, k)%nat
          else (besti, bestj, bestsize)))
    js ([], best).

Definition char_at (l : list ascii) (i : nat) : ascii := nth i l Ascii.zero.

(** The two [while] loops that extend the best block by equal characters
    (they matter only when popular characters were dropped from [b2j]). *)
Fixpoint extend_left (fuel : nat) (a b : list ascii) (alo blo : nat)
    (m : nat * nat * nat) : nat * nat * nat :=
  match fuel with
  | O => m
  | S fuel' =>
      let '(besti, bestj, bestsize) := m in
      if (alo <? besti)%nat && (blo <? bestj)%nat
         && Ascii.eqb (char_at a (besti - 1)) (char_at b (bestj - 1))
      then extend_left fuel' a b alo blo (besti - 1, bestj - 1, bestsize + 1)%nat
      else m
  end.

Fixpoint extend_right (fuel : nat) (a b : list ascii) (ahi bhi : nat)
    (m : nat * nat * nat) : nat * nat * nat :=
  match fuel with
  | O => m
  | S fuel' =>
      let '(besti, bestj, bestsize) := m in
      if (besti + bestsize <? ahi)%nat && (bestj + bestsize <? bhi)%nat
         && Ascii.eqb (char_at a (besti + bestsize)) (char_at b (bestj + bestsize))
      then extend_right fuel' a b ahi bhi (besti, bestj, bestsize + 1)%nat
      else m
  end.

(** [find_longest_match(alo, ahi, blo, bhi)] as the triple [(i, j, k)]. *)
Definition find_longest_match (a b : list ascii) (alo ahi blo bhi : nat)
  : nat * nat * nat :=
  let '(_, best) :=
    fold_left
      (fun st i =>
         let '(j2len, best) := st in
         scan_row i blo bhi j2len (b2j b (char_at a i)) best)
      (seq alo (ahi - alo)) ([], (alo, blo, 0%nat)) in
  extend_right (length a) a b ahi bhi (extend_left (length a) a b alo blo best).

(** The sum of the sizes of [get_matching_blocks()]: the longest block of
    the window, then the windows on its left and on its right.  Every
    level consumes a character of [a], so [fuel = S (length a)] is never
    exhausted. *)
Fixpoint matches (fuel : nat) (a b : list ascii) (alo ahi blo bhi : nat) : nat :=
  match fuel with
  | O => 0%nat
  | S fuel' =>
      let '(i, j, k) := find_longest_match a b alo ahi blo bhi in
      if (k =? 0)%nat then 0%nat
      else
        (k
         + (if (alo <? i)%nat && (blo <? j)%nat
            then matches fuel' a b alo i blo j else 0)
         + (if (i + k <? ahi)%nat && (j + k <? bhi)%nat
            then matches fuel' a b (i + k) ahi (j + k) bhi else 0))%nat
  end.

(** [_calculate_ratio(matches, len(a) + len(b))] *)
Definition ratio (sa sb : string) : Q :=
  let a := list_ascii_of_string sa in
  let b := list_ascii_of_string sb in
  let total := (length a + length b)%nat in
  match total with
  | O => 1%Q
  | S t =>
      Qmake (2 * Z.of_nat (matches (S (length a)) a b 0 (length a) 0 (length b)))
            (Pos.of_succ_nat t)
  end.

End Difflib.

(** ** [debug_ytmusic_scoring.py] *)

Module Scoring.

Local Open Scope Q_scope.

Definition CONFIDENCE_THRESHOLD : Q := 0.65.

Definition calculate_similarity (str1 str2 : string) : Q :=
  Difflib.ratio (Py.strip (Py.lower str1)) (Py.strip (Py.lower str2)).

(** *** Regular expressions of [normalize_text] *)

(** [\w] on one character; bytes of a multi-byte character count as
    letters. *)
Definition isword (c : ascii) : bool :=
  let n := N_of_ascii c in
  (((48 <=? n) && (n <=? 57)) || ((65 <=? n) && (n <=? 90))
   || ((97 <=? n) && (n <=? 122)) || (n =? 95) || (128 <=? n))%N.

Definition bracket_alts : list string :=
  ["official"; "mv"; "music video"; "lyrics"; "lyric video"; "audio"; "hd"; "4k"].

Fixpoint index_of (c : ascii) (s : string) : option nat :=
  match s with
  | EmptyString => None
  | String d s' =>
      if Ascii.eqb d c then Some 0%nat else option_map S (index_of c s')
  end.

(** Length of the match of [(alt1|...)[^close]*close] at the start of [s],
    the opening bracket already consumed. *)
Definition bracket_match (close : ascii) (s : string) : option nat :=
  match find (fun a => String.prefix a s) bracket_alts with
  | Some a =>
      option_map (fun k => (String.length a + k + 1)%nat)
                 (index_of close (Py.drop (String.length a) s))
  | None => None
  end.

(** [re.sub(r"\((official|...|4k)[^)]*\)", " ", s)] with [open = "("],
    [close = ")"], and its square-bracket twin. *)
Fixpoint sub_bracketed (open close : ascii) (s : string) (skip : nat) : string :=
  match s with
  | EmptyString => EmptyString
  | String c s' =>
      match skip with
      | S k => sub_bracketed open close s' k
      | O =>
          if Ascii.eqb c open then
            match bracket_match close s' with
            | Some len => String " " (sub_bracketed open close s' len)
            | None => String c (sub_bracketed open close s' 0)
            end
          else String c (sub_bracketed open close s' 0)
      end
  end.

Definition next_is_word (s : string) : bool :=
  match s with
  | EmptyString => false
  | String c _ => isword c
  end.

(** Length of the match of [(feat\.|feat|ft\.|ft)\b] at the start of [s]:
    the alternatives in order, each followed by a word boundary. *)
Definition feat_match (s : string) : option nat :=
  if String.prefix "feat." s && next_is_word (Py.drop 5 s) then Some 5%nat
  else if String.prefix "feat" s && negb (next_is_word (Py.drop 4 s)) then Some 4%nat
  else if String.prefix "ft." s && next_is_word (Py.drop 3 s) then Some 3%nat
  else if String.prefix "ft" s && negb (next_is_word (Py.drop 2 s)) then Some 2%nat
  else None.

(** [re.sub(r"\b(feat\.|feat|ft\.|ft)\b", "feat", s)]; [prev_word] tells
    whether the character before the current position is a word
    character. *)
Fixpoint sub_feat (s : string) (prev_word : bool) (skip : nat) : string :=
  match s with
  | EmptyString => EmptyString
  | String c s' =>
      match skip with
      | S k => sub_feat s' (isword c) k
      | O =>
          match (if prev_word then None else feat_match s) with
          | Some len => "feat" ++ sub_feat s' (isword c) (len - 1)
          | None => String c (sub_feat s' (isword c) 0)
          end
      end
  end.

(** [re.sub(r"\s+", " ", s)] *)
Fixpoint collapse_ws (s : string) (in_ws : bool) : string :=
  match s with
  | EmptyString => EmptyString
  | String c s' =>
      if Py.isspace c then
        if in_ws then collapse_ws s' true else String " " (collapse_ws s' true)
      else String c (collapse_ws s' false)
  end.

(** [re.split(r"\s+", s)]: empty strings are kept at both ends. *)
Fixpoint re_split_ws (s : string) (in_ws : bool) : list string :=
  match s with
  | EmptyString => [EmptyString]
  | String c s' =>
      if Py.isspace c then
        if in_ws then re_split_ws s' true else EmptyString :: re_split_ws s' true
      else match re_split_ws s' false with
           | h :: t => String c h :: t
           | [] => [String c EmptyString]
           end
  end.

(** *** Text normalisation *)

Definition meta_tokens : list string :=
  ["official audio"; "official video"; "official music video"; "lyrics";
   "lyric video"; "audio"; "mv"; "hd"; "4k"; "official"; "music video"].

Definition en_dash : string := "–".
Definition em_dash : string := "—".

Definition normalize_text (s : string) : string :=
  let s := Py.lower s in
  let s := Py.replace ":" " " (Py.replace "-" " "
             (Py.replace em_dash " " (Py.replace en_dash " " s))) in
  let s := fold_left (fun s t => Py.replace t " " s) meta_tokens s in
  let s := sub_bracketed "(" ")" s 0 in
  let s := sub_bracketed "[" "]" s 0 in
  let s := sub_feat s false 0 in
  Py.strip (collapse_ws s false).

Definition tokens (s : string) : list string :=
  let s := normalize_text s in
  filter (fun p => negb (String.eqb p "")) (re_split_ws s false).

(** The comprehension of [title_score]:
    [[t for t in tokens(a) if len(t) >= 2 and t not in {"feat"}]]. *)
Definition meaningful (t : string) : bool :=
  (2 <=? String.length t)%nat && negb (String.eqb t "feat").

Definition meaningful_tokens (a : string) : list string :=
  filter meaningful (tokens a).

(** The spec's tokenizer, word for word: normalise, split on whitespace
    (the maximal runs of non-whitespace characters), drop the tokens
    shorter than two characters and the token [feat]. *)
Fixpoint whitespace_runs (s : string) (cur : string) : list string :=
  match s with
  | EmptyString => match cur with EmptyString => [] | _ => [cur] end
  | String c s' =>
      if Py.isspace c then
        match cur with
        | EmptyString => whitespace_runs s' EmptyString
        | _ => cur :: whitespace_runs s' EmptyString
        end
      else whitespace_runs s' (cur ++ String c EmptyString)
  end.

Definition tokenize_spec (text : string) : list string :=
  filter (fun t => negb (String.length t <? 2)%nat && negb (String.eqb t "feat"))
         (whitespace_runs (normalize_text text) EmptyString).

(** *** The five signals *)

(** [max(0.0, min(x, 1.0))] *)
Definition clamp01 (x : Q) : Q := Qmax 0 (Qmin x 1).

Definition title_score (spotify_title yt_title : string) : Q :=
  let a := normalize_text spotify_title in
  let b := normalize_text yt_title in
  let sim := calculate_similarity a b in
  let ts := meaningful_tokens a in
  let sim :=
    match ts with
    | [] => sim
    | _ :: _ =>
        let hits := length (filter (fun t => Py.contains t b) ts) in
        let contain := Qmake (Z.of_nat hits) (Pos.of_nat (length ts)) in
        Qmax sim (0.55 * sim + 0.45 * contain)
    end in
  let sim :=
    if negb (String.eqb a "") && Py.contains a b then Qmax sim 0.85 else sim in
  clamp01 sim.

(** [res.get("artists")]: absent or falsy, a list whose entries are
    dictionaries with an optional [name] or other values (by their
    [str()]), or another truthy value (by its [str()]). *)
Inductive ArtistEntry : Type :=
| ArtistDict (name : option string)
| ArtistValue (repr : string).

Inductive Artists : Type :=
| ArtistsAbsent
| ArtistsList (l : list ArtistEntry)
| ArtistsValue (repr : string).

Definition or_empty (o : option string) : string :=
  match o with Some s => s | None => "" end.

(** [", ".join(names)] *)
Fixpoint join_comma (names : list string) : string :=
  match names with
  | [] => ""
  | [n] => n
  | n :: rest => n ++ ", " ++ join_comma rest
  end.

Definition normalize_artists_list (artists_list : Artists) : string :=
  match artists_list with
  | ArtistsAbsent => ""
  | ArtistsList l =>
      let names :=
        map (fun a => match a with
                      | ArtistDict name => or_empty name
                      | ArtistValue repr => repr
                      end) l in
      join_comma (filter (fun n => negb (String.eqb n "")) names)
  | ArtistsValue repr => repr
  end.

(** Returns [(score, matched_count, per_artist_sims)]. *)
Definition artist_score (spotify_artists : list string)
    (yt_artists_text yt_title : string) : Q * nat * list (string * Q) :=
  let yt_blob := normalize_text yt_artists_text ++ " " ++ normalize_text yt_title in
  let per :=
    map (fun a =>
           let sim := calculate_similarity (normalize_text a) yt_blob in
           let sim :=
             if negb (String.eqb (normalize_text a) "")
                && Py.contains (normalize_text a) yt_blob
             then Qmax sim 0.95 else sim in
           (a, clamp01 sim))
        spotify_artists in
  let per_sorted := Py.sort_desc snd per in
  match per_sorted with
  | [] => (0, 0%nat, [])
  | (_, best) :: _ =>
      let matched := length (filter (fun p => Qle_bool 0.75 (snd p)) per) in
      let bonus :=
        if (2 <=? matched)%nat then 0.08
        else if (matched =? 1)%nat then 0.02 else 0 in
      (clamp01 (best + bonus), matched, per_sorted)
  end.

Definition parse_duration_to_seconds (duration_str : string) : option Z :=
  if String.eqb duration_str "" then None
  else
    match Py.split ":" (Py.strip duration_str) with
    | [m; s] =>
        match Py.int m, Py.int s with
        | Some m, Some s => Some (m * 60 + s)%Z
        | _, _ => None
        end
    | [h; m; s] =>
        match Py.int h, Py.int m, Py.int s with
        | Some h, Some m, Some s => Some (h * 3600 + m * 60 + s)%Z
        | _, _, _ => None
        end
    | _ => None
    end.

Definition duration_score (spotify_duration_ms : option Z)
    (yt_duration_str : string) : Q :=
  match spotify_duration_ms with
  | None | Some 0%Z => 0.5
  | Some ms =>
      match parse_duration_to_seconds yt_duration_str with
      | None => 0.5
      | Some yt_sec =>
          let sp_sec := Qmax 1 (Qmake ms 1000) in
          let delta := Qabs (sp_sec - inject_Z yt_sec) in
          if Qle_bool delta 5 then 1
          else if Qle_bool delta 15 then 0.85
          else if Qle_bool delta 30 then 0.65
          else if Qle_bool delta 60 then 0.35
          else 0
      end
  end.

(** The spec's duration score, word for word: neutral when the trusted
    duration is unknown or the candidate's does not parse, otherwise the
    bucket of the absolute difference between the two durations. *)
Definition duration_score_spec (trusted_ms : option Z) (candidate : string) : Q :=
  match trusted_ms, parse_duration_to_seconds candidate with
  | Some ms, Some yt_sec =>
      let delta := Qabs (Qmake ms 1000 - inject_Z yt_sec) in
      if Qle_bool delta 5 then 1
      else if Qle_bool delta 15 then 0.85
      else if Qle_bool delta 30 then 0.65
      else if Qle_bool delta 60 then 0.35
      else 0
  | _, _ => 0.5
  end.

Definition live_markers : list string := ["live"; "现场"; "現場"].

Definition heuristic_adjustment (spotify_title yt_title : string) : Q :=
  let sp := normalize_text spotify_title in
  let yt := normalize_text yt_title in
  let adj := 0 in
  let sp_live := existsb (fun k => Py.contains k sp) live_markers in
  let yt_live := existsb (fun k => Py.contains k yt) live_markers in
  let adj := if sp_live && yt_live then adj + 0.05 else adj in
  let adj :=
    if (Py.contains "cover" yt || Py.contains "翻唱" yt)
       && (negb (Py.contains "cover" sp) && negb (Py.contains "翻唱" sp))
    then adj - 0.12 else adj in
  let adj :=
    if Py.contains "remix" yt && negb (Py.contains "remix" sp)
    then adj - 0.10 else adj in
  adj.

(** [round(x, 3)]: to the nearest multiple of 1/1000, a tie to the even
    one. *)
Definition round_half_even (x : Q) : Z :=
  let f := Qfloor x in
  match Qcompare (x - inject_Z f) 0.5 with
  | Lt => f
  | Gt => (f + 1)%Z
  | Eq => if Z.even f then f else (f + 1)%Z
  end.

Definition round3 (x : Q) : Q := Qmake (round_half_even (x * 1000)) 1000.

Record ScoredCandidate : Type := {
  idx : Z;
  video_id : string;
  title : string;
  channel : string;
  duration : string;
  url : string;
  final : Q;
  title_s : Q;
  artist_s : Q;
  duration_s : Q;
  rank_s : Q;
  heur : Q;
  matched_artists : nat;
  artist_sims : list (string * Q)
}.

(** One entry of the raw search payload; an absent key is [None]. *)
Record RawResult : Type := {
  res_videoId : option string;
  res_title : option string;
  res_artists : Artists;
  res_duration : option string
}.

Section Scorer.

(** [math.exp], the one library function of the scorer that is not a
    rational function: the scorer is stated for whatever it returns. *)
Variable exp : Q -> Q.

Definition rank_prior (rank : Z) (strength : Q) : Q :=
  let r := Z.max 1 rank in
  exp (- inject_Z (r - 1) / Qmax 1e-6 strength).

(** The weighted sum of line 311, before the clamp. *)
Definition combine (t_s a_s d_s r_s heur : Q) : Q :=
  (0.45 * t_s) + (0.25 * a_s) + (0.20 * d_s) + (0.10 * r_s) + heur.

(** The body of the loop of [score_results] for the entry at rank [i]:
    [None] is the [continue] of an entry without a [videoId]. *)
Definition score_one (spotify_name : string) (spotify_artists : list string)
    (spotify_duration_ms : option Z) (rank_strength : Q)
    (i : Z) (res : RawResult) : option ScoredCandidate :=
  let video_id := or_empty (res_videoId res) in
  if String.eqb video_id "" then None
  else
    let title := or_empty (res_title res) in
    let channel := normalize_artists_list (res_artists res) in
    let duration := or_empty (res_duration res) in
    let t_s := title_score spotify_name title in
    let '(a_s, matched, a_sims) := artist_score spotify_artists channel title in
    let d_s := duration_score spotify_duration_ms duration in
    let r_s := rank_prior i rank_strength in
    let heur := heuristic_adjustment spotify_name title in
    let final := combine t_s a_s d_s r_s heur in
    let final := Qmax 0 (Qmin final 1) in
    Some {| idx := i;
            video_id := video_id;
            title := title;
            channel := channel;
            duration := duration;
            url := "https://music.youtube.com/watch?v=" ++ video_id;
            final := round3 final;
            title_s := round3 t_s;
            artist_s := round3 a_s;
            duration_s := round3 d_s;
            rank_s := round3 r_s;
            heur := round3 heur;
            matched_artists := matched;
            artist_sims := map (fun p => (fst p, round3 (snd p))) a_sims |}.

(** [for i, res in enumerate(results, start=i): ...; scored.append(...)] *)
Fixpoint score_loop (spotify_name : string) (spotify_artists : list string)
    (spotify_duration_ms : option Z) (rank_strength : Q)
    (i : Z) (results : list RawResult) : list ScoredCandidate :=
  match results with
  | [] => []
  | res :: rest =>
      let tail :=
        score_loop spotify_name spotify_artists spotify_duration_ms
                   rank_strength (i + 1) rest in
      match score_one spotify_name spotify_artists spotify_duration_ms
                      rank_strength i res with
      | Some c => c :: tail
      | None => tail
      end
  end.

Definition score_results (results : list RawResult) (spotify_name : string)
    (spotify_artists : list string) (spotify_duration_ms : option Z)
    (rank_strength : Q) : list ScoredCandidate :=
  Py.sort_desc final
    (score_loop spotify_name spotify_artists spotify_duration_ms
                rank_strength 1 results).

End Scorer.

End Scoring.

(** ** [urllib.parse] and [os.path] functions used by [backend/app.py] *)

Module Lib.

Definition hex_value (c : ascii) : option N :=
  let n := N_of_ascii c in
  if ((48 <=? n) && (n <=? 57))%N then Some (n - 48)%N
  else if ((65 <=? n) && (n <=? 70))%N then Some (n - 55)%N
  else if ((97 <=? n) && (n <=? 102))%N then Some (n - 87)%N
  else None.

Definition escape_at (s : string) : option ascii :=
  match s with
  | String "%" (String x (String y _)) =>
      match hex_value x, hex_value y with
      | Some h, Some l => Some (ascii_of_N (16 * h + l))
      | _, _ => None
      end
  | _ => None
  end.

(** [unquote(s)]: every [%XY] with two hexadecimal digits becomes the
    byte it names; any other [%] is kept.  (Escapes are taken to decode
    to valid UTF-8.) *)
Fixpoint unquote_skip (s : string) (skip : nat) : string :=
  match s with
  | EmptyString => EmptyString
  | String c s' =>
      match skip with
      | S k => unquote_skip s' k
      | O =>
          match escape_at s with
          | Some b => String b (unquote_skip s' 2)
          | None => String c (unquote_skip s' 0)
          end
      end
  end.

Definition unquote (s : string) : string := unquote_skip s 0.

Definition hex_digit (n : N) : ascii :=
  if (n <? 10)%N then ascii_of_N (48 + n) else ascii_of_N (55 + n).

(** The characters [quote] never escapes: letters, digits and [_.-~]. *)
Definition always_safe (c : ascii) : bool :=
  let n := N_of_ascii c in
  (((48 <=? n) && (n <=? 57)) || ((65 <=? n) && (n <=? 90))
   || ((97 <=? n) && (n <=? 122))
   || (n =? 95) || (n =? 46) || (n =? 45) || (n =? 126))%N.

(** [quote(s, safe='')] *)
Fixpoint quote (s : string) : string :=
  match s with
  | EmptyString => EmptyString
  | String c s' =>
      if always_safe c then String c (quote s')
      else
        let n := N_of_ascii c in
        String "%" (String (hex_digit (n / 16)) (String (hex_digit (n mod 16)) (quote s')))
  end.

(** [os.path.basename(p)] (POSIX): what follows the last slash. *)
Fixpoint basename (p : string) : string :=
  match p with
  | EmptyString => EmptyString
  | String c p' =>
      if Py.contains "/" p then
        (if Py.contains "/" p' then basename p'
         else if Ascii.eqb c "/" then p' else basename p')
      else p
  end.

Fixpoint rstrip_slash (s : string) : string :=
  match s with
  | String c s' =>
      match rstrip_slash s' with
      | EmptyString => if Ascii.eqb c "/" then EmptyString else String c EmptyString
      | r => String c r
      end
  | EmptyString => EmptyString
  end.

Fixpoint take (n : nat) (s : string) : string :=
  match n, s with
  | S n', String c s' => String c (take n' s')
  | _, _ => EmptyString
  end.

(** [os.path.dirname(p)] (POSIX): what precedes the base name, without
    its trailing slashes unless it consists of slashes only. *)
Definition dirname (p : string) : string :=
  let head := take (String.length p - String.length (basename p)) p in
  match rstrip_slash head with
  | EmptyString => head
  | h => h
  end.

End Lib.

(** ** [backend/app.py] *)

Module App.

Local Open Scope Z_scope.

(** *** Records of the two status stores *)

(** A value of [download_status]: the dictionaries the orchestrator
    writes, with their optional keys. *)
Record JobRecord : Type := {
  status : string;
  message : string;
  stage : option string;
  progress : Z;
  file_path : option string;
  download_url : option string;
  album_id : option string
}.

(** A value of [album_download_status]. *)
Record AlbumRecord : Type := {
  album_status : string;
  album_name : string;
  album_artist : string;
  total_tracks : Z;
  completed_tracks : Z;
  failed_tracks : Z;
  current_track : option string;
  track_ids : list string
}.

Record State : Type := {
  download_status : gmap string JobRecord;
  album_download_status : gmap string AlbumRecord
}.

(** The machine a retrieval runs on: a clock in seconds and the set of
    existing file paths. *)
Record OS : Type := {
  clock : Z;
  files : gset string
}.

(** *** Collaborators *)

(** The result of a call: a value, or an exception with its [str(e)]. *)
Inductive outcome (A : Type) : Type :=
| Returns (a : A)
| Raises (e : string).
Arguments Returns {A} a.
Arguments Raises {A} e.

Record TrackInfo : Type := {
  track_id_of : string;
  track_name : string;
  track_artist : string;
  track_album : string
}.

Record Album : Type := {
  album_name_of : string;
  album_artist_of : string;
  album_tracks : list TrackInfo
}.

(** [SpotifyService]: both look-ups catch their own exceptions and
    answer [None]. *)
Record Spotify : Type := {
  get_track_details : string -> option TrackInfo;
  get_album_details : string -> option Album
}.

(** The dictionary [search_and_download] answers with. *)
Record DownloadResult : Type := {
  dr_success : bool;
  dr_error : option string;
  dr_file_path : option string
}.

Record NavidromeResult : Type := {
  nr_success : bool;
  nr_error : option string
}.

Record Collaborators : Type := {
  spotify_service : option Spotify;
  mkdir : string -> outcome unit;
  get_download_path : TrackInfo -> string -> string -> outcome string;
  search_and_download :
    string -> string -> string -> TrackInfo -> option string -> outcome DownloadResult;
  apply_metadata : string -> TrackInfo -> outcome unit;
  get_target_path : TrackInfo -> string -> outcome string;
  copy2 : string -> string -> outcome unit;
  path_exists : string -> bool;
  remove : string -> outcome unit;
  finalize_track : string -> outcome NavidromeResult
}.

(** *** The orchestration monad: the records written so far, and a value
    or an exception *)

Definition Task (A : Type) : Type := list JobRecord * outcome A.

Definition ret {A : Type} (a : A) : Task A := ([], Returns a).

Definition bind {A B : Type} (m : Task A) (k : A -> Task B) : Task B :=
  match m with
  | (log, Returns a) => let '(log', r) := k a in ((log ++ log')%list, r)
  | (log, Raises e) => (log, Raises e)
  end.

Notation "'let*' x ':=' m 'in' k" := (bind m (fun x => k))
  (at level 10, x name, m at level 100, k at level 200, only parsing).
Notation "m '>>' k" := (bind m (fun _ => k))
  (at level 100, k at level 200, right associativity, only parsing).

(** [download_status[track_id] = record] *)
Definition set_status (record : JobRecord) : Task unit := ([record], Returns tt).

Definition call {A : Type} (o : outcome A) : Task A := ([], o).

(** [try: body except Exception as e: handler(str(e))] *)
Definition try_except {A : Type} (body : Task A) (handler : string -> Task A) : Task A :=
  match body with
  | (log, Raises e) => let '(log', r) := handler e in ((log ++ log')%list, r)
  | done => done
  end.

Definition processing (msg stg : string) (p : Z) : JobRecord :=
  {| status := "processing"; message := msg; stage := Some stg; progress := p;
     file_path := None; download_url := None; album_id := None |}.

Definition failed (msg : string) : JobRecord :=
  {| status := "error"; message := msg; stage := None; progress := 0;
     file_path := None; download_url := None; album_id := None |}.

Definition completed (msg path : string) (url : option string) : JobRecord :=
  {| status := "completed"; message := msg; stage := Some "completed";
     progress := 100; file_path := Some path; download_url := url;
     album_id := None |}.

Definition queued (msg : string) (album : option string) : JobRecord :=
  {| status := "queued"; message := msg; stage := Some "queued"; progress := 0;
     file_path := None; download_url := None; album_id := album |}.

Definition or_default (d : string) (o : option string) : string :=
  match o with Some s => s | None => d end.

Section Orchestrator.

(** Settings of the [config] module, which is not among the sources:
    [os.path.join(config.DOWNLOAD_DIR, "temp")] and [config.OUTPUT_FORMAT]. *)
Variable temp_dir : string.
Variable OUTPUT_FORMAT : string.

Variable w : Collaborators.

(** The inner [try] of the Navidrome branch. *)
Definition copy_to_navidrome (track_info : TrackInfo) (downloaded : string) : Task unit :=
  try_except
    (let* target_path := call (get_target_path w track_info OUTPUT_FORMAT) in
     call (copy2 w downloaded target_path) >>
     (if path_exists w downloaded then call (remove w downloaded) else ret tt) >>
     let* navidrome_result := call (finalize_track w target_path) in
     if nr_success navidrome_result then
       set_status (completed "Track successfully added to Navidrome library"
                             target_path None)
     else
       set_status (completed ("Track added to library (scan may need manual trigger): "
                              ++ or_default "" (nr_error navidrome_result))
                             target_path None))
    (fun e => set_status (failed ("Failed to copy to Navidrome: " ++ e))).

(** Background task: download and process one track. *)
Definition download_and_process (track_id location : string)
    (video_id : option string) : Task unit :=
  try_except
    (set_status (processing "Fetching track info..." "fetching" 10) >>
     let* sp :=
       call (match spotify_service w with
             | Some sp => Returns sp
             | None => Raises "'NoneType' object has no attribute 'get_track_details'"
             end) in
     match get_track_details sp track_id with
     | None => set_status (failed "Could not fetch track information")
     | Some track_info =>
         set_status (processing "Preparing download location..." "preparing" 15) >>
         let* download_path :=
           (if String.eqb location "navidrome" then
              call (mkdir w temp_dir) >>
              call (get_download_path w track_info temp_dir OUTPUT_FORMAT)
            else
              call (mkdir w temp_dir) >>
              call (get_download_path w track_info temp_dir OUTPUT_FORMAT)) in
         set_status (processing "Searching YouTube and downloading..."
                                "downloading" 30) >>
         let* download_result :=
           call (search_and_download w (track_name track_info)
                                     (track_artist track_info)
                                     download_path track_info video_id) in
         if negb (dr_success download_result) then
           set_status (failed ("Download failed: "
                               ++ or_default "Unknown error" (dr_error download_result)))
         else
           set_status (processing "Applying metadata..." "tagging" 85) >>
           let* downloaded :=
             call (match dr_file_path download_result with
                   | Some p => Returns p
                   | None => Raises "'file_path'"
                   end) in
           call (apply_metadata w downloaded track_info) >>
           if String.eqb location "navidrome" then
             set_status (processing "Copying to Navidrome library..." "copying" 90) >>
             copy_to_navidrome track_info downloaded
           else
             let filename := Lib.basename downloaded in
             let encoded_filename := Lib.quote filename in
             let download_url := "/api/download/file/" ++ track_id ++ "?filename="
                                 ++ encoded_filename in
             set_status (completed "Track ready for download" downloaded
                                   (Some download_url))
     end)
    (fun e => set_status (failed ("Error: " ++ e))).

(** The writes of a task land in [download_status[track_id]], in order. *)
Definition apply_writes (track_id : string) (log : list JobRecord)
    (store : gmap string JobRecord) : gmap string JobRecord :=
  fold_left (fun m r => <[track_id := r]> m) log store.

Definition set_current_track (a : AlbumRecord) (t : option string) : AlbumRecord :=
  {| album_status := album_status a; album_name := album_name a;
     album_artist := album_artist a; total_tracks := total_tracks a;
     completed_tracks := completed_tracks a; failed_tracks := failed_tracks a;
     current_track := t; track_ids := track_ids a |}.

Definition set_album_status (a : AlbumRecord) (s : string) : AlbumRecord :=
  {| album_status := s; album_name := album_name a;
     album_artist := album_artist a; total_tracks := total_tracks a;
     completed_tracks := completed_tracks a; failed_tracks := failed_tracks a;
     current_track := current_track a; track_ids := track_ids a |}.

Definition add_completed (a : AlbumRecord) : AlbumRecord :=
  {| album_status := album_status a; album_name := album_name a;
     album_artist := album_artist a; total_tracks := total_tracks a;
     completed_tracks := completed_tracks a + 1; failed_tracks := failed_tracks a;
     current_track := current_track a; track_ids := track_ids a |}.

Definition add_failed (a : AlbumRecord) : AlbumRecord :=
  {| album_status := album_status a; album_name := album_name a;
     album_artist := album_artist a; total_tracks := total_tracks a;
     completed_tracks := completed_tracks a; failed_tracks := failed_tracks a + 1;
     current_track := current_track a; track_ids := track_ids a |}.

(** Lines 396-410: count the track, then check whether the album is
    complete. *)
Definition count_track (job : option JobRecord) (a : AlbumRecord) : AlbumRecord :=
  let a :=
    match job with
    | Some j => if String.eqb (status j) "completed" then add_completed a else add_failed a
    | None => add_failed a
    end in
  let total := total_tracks a in
  let completed := completed_tracks a in
  let failed := failed_tracks a in
  if total <=? completed + failed
  then set_current_track (set_album_status a "completed") None
  else a.

(** Download a single track as part of an album download. *)
Definition download_album_track (track_id location album_id : string)
    (st : State) : State :=
  let albums :=
    match album_download_status st !! album_id with
    | Some a => <[album_id := set_current_track a (Some track_id)]> (album_download_status st)
    | None => album_download_status st
    end in
  let '(log, result) := download_and_process track_id location None in
  let jobs := apply_writes track_id log (download_status st) in
  match result with
  | Returns _ =>
      {| download_status := jobs;
         album_download_status :=
           match albums !! album_id with
           | Some a => <[album_id := count_track (jobs !! track_id) a]> albums
           | None => albums
           end |}
  | Raises e =>
      {| download_status := jobs;
         album_download_status :=
           match albums !! album_id with
           | Some a => <[album_id := add_failed a]> albums
           | None => albums
           end |}
  end.

End Orchestrator.

(** *** Endpoints *)

Inductive BackgroundTask : Type :=
| TaskDownloadAndProcess (track_id location : string) (video_id : option string)
| TaskDownloadAlbumTrack (track_id location album_id : string)
| TaskCleanupTempFile (path : string).

Inductive Response : Type :=
| HTTPException (status_code : Z) (detail : string)
| QueuedTrack (msg track_id : string)
| QueuedAlbum (msg album_id : string) (total : Z)
| FileResponse (path media_type filename content_disposition : string).

Definition location_msg (location : string) : string :=
  if String.eqb location "local" then "local downloads folder" else "Navidrome server".

Definition valid_location (location : option string) : string :=
  match location with
  | Some l => if String.eqb l "local" || String.eqb l "navidrome" then l else "local"
  | None => "local"
  end.

(** [POST /api/download] *)
Definition download_track (w : Collaborators) (track_id : string)
    (location : option string) (video_id : option string) (st : State)
  : Response * State * list BackgroundTask :=
  match spotify_service w with
  | None => (HTTPException 500 "Spotify service not configured", st, [])
  | Some _ =>
      let location := valid_location location in
      let msg := location_msg location in
      (QueuedTrack ("Download started to " ++ msg) track_id,
       {| download_status :=
            <[track_id := queued ("Download queued for " ++ msg) None]> (download_status st);
          album_download_status := album_download_status st |},
       [TaskDownloadAndProcess track_id location video_id])
  end.

(** [POST /api/download/album] *)
Definition download_album (w : Collaborators) (album_id : string)
    (location : option string) (st : State)
  : Response * State * list BackgroundTask :=
  match spotify_service w with
  | None => (HTTPException 500 "Spotify service not configured", st, [])
  | Some sp =>
      match get_album_details sp album_id with
      | None => (HTTPException 404 "Album not found", st, [])
      | Some album =>
          let location := valid_location location in
          let msg := location_msg location in
          let ids := map track_id_of (album_tracks album) in
          let record :=
            {| album_status := "downloading";
               album_name := album_name_of album;
               album_artist := album_artist_of album;
               total_tracks := Z.of_nat (length (album_tracks album));
               completed_tracks := 0;
               failed_tracks := 0;
               current_track := None;
               track_ids := ids |} in
          let job := queued ("Queued (Album: " ++ album_name_of album ++ ")") (Some album_id) in
          (QueuedAlbum ("Album '" ++ album_name_of album ++ "' queued for download to " ++ msg)
                       album_id (Z.of_nat (length (album_tracks album))),
           {| download_status :=
                fold_left (fun m t => <[t := job]> m) ids (download_status st);
              album_download_status :=
                <[album_id := record]> (album_download_status st) |},
           map (fun t => TaskDownloadAlbumTrack t location album_id) ids)
      end
  end.

(** The character that delimits the file name of the header. *)
Definition double_quote : ascii := ascii_of_N 34.

Section Retrieval.

(** [str(Path(config.DOWNLOAD_DIR) / "temp")], from the same [config]
    module. *)
Variable temp_dir_path : string.

(** [GET /api/download/file/{track_id}]: the response and the background
    tasks of the request after the call. *)
Definition download_file (st : State) (os : OS) (track_id filename : string)
    (background_tasks : list BackgroundTask) : Response * list BackgroundTask :=
  match download_status st !! track_id with
  | None => (HTTPException 404 "Download not found", background_tasks)
  | Some job =>
      if negb (String.eqb (status job) "completed") then
        (HTTPException 400 "File not ready for download", background_tasks)
      else
        match file_path job with
        | None | Some EmptyString =>
            (HTTPException 404 "File not found", background_tasks)
        | Some path =>
            if negb (bool_decide (path ∈ files os)) then
              (HTTPException 404 "File not found", background_tasks)
            else
              let decoded_filename := Lib.unquote filename in
              let actual_filename := Lib.basename path in
              if negb (String.eqb actual_filename decoded_filename) then
                (HTTPException 400
                   ("Invalid filename. Expected: " ++ actual_filename
                    ++ ", Got: " ++ decoded_filename),
                 background_tasks)
              else
                let is_temp_file :=
                  Py.contains temp_dir_path path
                  || Py.contains "temp" (Lib.dirname path) in
                let response :=
                  FileResponse path "audio/mpeg" decoded_filename
                    ("attachment; filename=" ++ String double_quote decoded_filename
                     ++ String double_quote EmptyString) in
                (response,
                 if is_temp_file
                 then (background_tasks ++ [TaskCleanupTempFile path])%list
                 else background_tasks)
        end
  end.

End Retrieval.

(** Clean up a temporary download file: [time.sleep(2)], then the file is
    removed if it exists. *)
Definition cleanup_temp_file (path : string) (os : OS) : OS :=
  let os := {| clock := clock os + 2; files := files os |} in
  if bool_decide (path ∈ files os)
  then {| clock := clock os; files := files os ∖ {[path]} |}
  else os.

(** The background tasks of one request run one after the other; task
    number [n] meets the collaborators [ws n]. *)
Fixpoint run_tasks (temp_dir OUTPUT_FORMAT : string) (ws : nat -> Collaborators)
    (n : nat) (tasks : list BackgroundTask) (st : State) : State :=
  match tasks with
  | [] => st
  | task :: rest =>
      let st' :=
        match task with
        | TaskDownloadAndProcess track_id location video_id =>
            {| download_status :=
                 apply_writes track_id
                   (fst (download_and_process temp_dir OUTPUT_FORMAT (ws n)
                                              track_id location video_id))
                   (download_status st);
               album_download_status := album_download_status st |}
        | TaskDownloadAlbumTrack track_id location album_id =>
            download_album_track temp_dir OUTPUT_FORMAT (ws n)
                                 track_id location album_id st
        | TaskCleanupTempFile _ => st
        end in
      run_tasks temp_dir OUTPUT_FORMAT ws (S n) rest st'
  end.

End App.

(** * Vocabulary of the properties *)

Section Ordering.

Context {A : Type} (key : A -> Q) (rank : A -> Z).

(** [x] may stand in front of [y]: a greater key, or an equal key and an
    earlier rank. *)
Definition in_front (x y : A) : Prop :=
  (key y < key x)%Q \/ ((key x == key y)%Q /\ (rank x < rank y)%Z).

End Ordering.

Definition nonempty (p : string) : bool := negb (String.eqb p "").

Section ScorerVocabulary.

Import Scoring.

Variable exp : Q -> Q.
Variables (name : string) (artists : list string) (ms : option Z) (strength : Q).

(** The unrounded sum of a scored candidate, recomputed from its own
    fields. *)
Definition raw_sum (c : ScoredCandidate) : Q :=
  combine (title_score name (title c))
          (fst (fst (artist_score artists (channel c) (title c))))
          (duration_score ms (duration c))
          (rank_prior exp (idx c) strength)
          (heuristic_adjustment name (title c)).

End ScorerVocabulary.

(** A first-order rational stand-in for [math.exp], on which the concrete
    examples are evaluated: exact at 0, where the rank prior of the first
    rank is taken, and strictly increasing. *)
Definition exp_stand_in (x : Q) : Q :=
  if Qle_bool 0 x then (1 + x)%Q else (/ (1 - x))%Q.

(** A payload of three entries whose second one has no [videoId]. *)
Definition entry (v : option string) (t d : string) : Scoring.RawResult :=
  {| Scoring.res_videoId := v; Scoring.res_title := Some t;
     Scoring.res_artists := Scoring.ArtistsAbsent;
     Scoring.res_duration := Some d |}.

Definition payload_with_gap : list Scoring.RawResult :=
  [entry (Some "v1") "abc" "0:10"; entry None "abc" "0:10";
   entry (Some "v3") "cxyz" "0:10"].

Section JobVocabulary.

Import App.

Local Open Scope Z_scope.

(** What one write may do to the progress of a job: go down only into
    [error], and be 0 in [error]. *)
Definition progress_step (r r' : JobRecord) : Prop :=
  (progress r' < progress r -> status r' = "error") /\
  (status r' = "error" -> progress r' = 0).

(** The progress values of the two complete runs. *)
Definition happy_path (location : string) : list Z :=
  if String.eqb location "navidrome" then [0; 10; 15; 30; 85; 90; 100]
  else [0; 10; 15; 30; 85; 100].

(** The album record after [k] member tracks have been counted. *)
Definition album_settled (n k : Z) (a : AlbumRecord) : Prop :=
  total_tracks a = n /\
  completed_tracks a + failed_tracks a = k /\
  (album_status a = "completed" <-> total_tracks a <= completed_tracks a + failed_tracks a) /\
  (album_status a = "completed" -> current_track a = None).

(** What holds of the record before a member track starts, the fresh
    record included. *)
Definition album_running (n k : Z) (a : AlbumRecord) : Prop :=
  total_tracks a = n /\
  completed_tracks a + failed_tracks a = k /\
  (album_status a = "completed" -> n <= k).

Definition album_task (location album_id track_id : string) : BackgroundTask :=
  TaskDownloadAlbumTrack track_id location album_id.

Variables (temp_dir OUTPUT_FORMAT : string) (w : Collaborators).
Variables (track_id location : string) (video_id : option string).

(** The successive values of [download_status[track_id]]: the record of
    the submission, then the writes of the background task. *)
Definition job_history (submitted : JobRecord) : list JobRecord :=
  submitted :: fst (download_and_process temp_dir OUTPUT_FORMAT w
                                         track_id location video_id).

End JobVocabulary.

Section Samples.

Import App.

Local Open Scope Z_scope.

(** ** Concrete collaborators and stores *)

Definition sample_track (id : string) : TrackInfo :=
  {| track_id_of := id; track_name := "Shape of You";
     track_artist := "Ed Sheeran"; track_album := "Divide" |}.

(** A catalogue that knows every track but [missing] and the album
    [album1], whose second track is [missing]. *)
Definition sample_spotify : Spotify :=
  {| get_track_details :=
       fun id => if String.eqb id "missing" then None else Some (sample_track id);
     get_album_details :=
       fun id =>
         if String.eqb id "album1"
         then Some {| album_name_of := "Divide"; album_artist_of := "Ed Sheeran";
                      album_tracks := [sample_track "t1"; sample_track "missing"] |}
         else None |}.

(** Collaborators that all succeed. *)
Definition sample_world : Collaborators :=
  {| spotify_service := Some sample_spotify;
     mkdir := fun _ => Returns tt;
     get_download_path :=
       fun t dir fmt => Returns (dir ++ "/" ++ track_name t ++ "." ++ fmt)%string;
     search_and_download :=
       fun _ _ path _ _ =>
         Returns {| dr_success := true; dr_error := None; dr_file_path := Some path |};
     apply_metadata := fun _ _ => Returns tt;
     get_target_path :=
       fun t fmt => Returns ("/music/" ++ track_artist t ++ "/" ++ track_name t
                             ++ "." ++ fmt)%string;
     copy2 := fun _ _ => Returns tt;
     path_exists := fun _ => true;
     remove := fun _ => Returns tt;
     finalize_track := fun _ => Returns {| nr_success := true; nr_error := None |} |}.

Definition empty_state : State :=
  {| download_status := ∅; album_download_status := ∅ |}.

(** A store with one completed local job, and a disk that holds its
    file. *)
Definition staged_path : string := "downloads/temp/song.mp3".

Definition staged_state : State :=
  {| download_status :=
       {[ "t1" := completed "Track ready for download" staged_path
                            (Some "/api/download/file/t1?filename=song.mp3") ]};
     album_download_status := ∅ |}.

Definition staged_os : OS := {| clock := 0; files := {[ staged_path ]} |}.

End Samples.

(** ** [debug_ytmusic_scoring_old.py] *)

Module ScoringOld.

Local Open Scope Q_scope.

Definition suffixes : list string :=
  ["official audio"; "official video"; "official music video"; "lyrics";
   "lyric video"; "audio"; "hd"; "4k"; "official"; "(official)"; "[official]";
   "music video"].

(** The title of the candidate, lower-cased, after the loop that removes
    the common suffixes. *)
Definition clean_title (youtube_title : string) : string :=
  fold_left (fun t suffix => Py.strip (Py.replace suffix "" t)) suffixes
            (Py.lower youtube_title).

(** [main_artist]: the first comma-separated part of the artist. *)
Definition main_artist (artist : string) : string :=
  let art := Py.lower artist in
  let artist_parts := map Py.strip (Py.split "," art) in
  match artist_parts with a :: _ => a | [] => art end.

(** [artist_found]: the main artist occurs in the title or in the channel. *)
Definition artist_found (youtube_title youtube_channel artist : string) : bool :=
  let artist_in_title := Py.contains (main_artist artist) (clean_title youtube_title) in
  let artist_in_channel := Py.contains (main_artist artist) (Py.lower youtube_channel) in
  artist_in_title || artist_in_channel.

(** [title_sim], after the substring floor. *)
Definition title_sim (youtube_title track_name : string) : Q :=
  let yt_title := clean_title youtube_title in
  let track := Py.lower track_name in
  let title_sim := Scoring.calculate_similarity yt_title track in
  let track_in_title := Py.contains track yt_title in
  if track_in_title then Qmax title_sim 0.8 else title_sim.

(** [artist_sim] *)
Definition artist_sim (youtube_title youtube_channel artist : string) : Q :=
  Qmax (Scoring.calculate_similarity (Py.lower youtube_channel) (main_artist artist))
       (Scoring.calculate_similarity (clean_title youtube_title) (main_artist artist)).

(** Overall match score between a search result and the intended track. *)
Definition calculate_match_score (youtube_title youtube_channel track_name artist : string)
  : Q :=
  let artist_found := artist_found youtube_title youtube_channel artist in
  let title_sim := title_sim youtube_title track_name in
  let artist_sim := artist_sim youtube_title youtube_channel artist in
  let score :=
    if negb artist_found && negb (Qle_bool 0.5 artist_sim)
    then title_sim * 0.4
    else (title_sim * 0.5) + (artist_sim * 0.35) + (if artist_found then 0.15 else 0) in
  Qmin score 1.

Record ScoredCandidate : Type := {
  idx : Z;
  video_id : string;
  title : string;
  channel : string;
  duration : string;
  score : Q;
  url : string
}.

Definition score_one (track_name artist : string) (i : Z) (res : Scoring.RawResult)
  : option ScoredCandidate :=
  let video_id := Scoring.or_empty (Scoring.res_videoId res) in
  if String.eqb video_id "" then None
  else
    let title := Scoring.or_empty (Scoring.res_title res) in
    let channel := Scoring.normalize_artists_list (Scoring.res_artists res) in
    let duration := Scoring.or_empty (Scoring.res_duration res) in
    let score := calculate_match_score title channel track_name artist in
    Some {| idx := i; video_id := video_id; title := title; channel := channel;
            duration := duration; score := Scoring.round3 score;
            url := "https://music.youtube.com/watch?v=" ++ video_id |}.

Fixpoint score_loop (track_name artist : string) (i : Z)
    (results : list Scoring.RawResult) : list ScoredCandidate :=
  match results with
  | [] => []
  | res :: rest =>
      let tail := score_loop track_name artist (i + 1) rest in
      match score_one track_name artist i res with
      | Some c => c :: tail
      | None => tail
      end
  end.

Definition score_results (results : list Scoring.RawResult) (track_name artist : string)
  : list ScoredCandidate :=
  Py.sort_desc score (score_loop track_name artist 1 results).

End ScoringOld.

(** ** The status endpoints of [backend/app.py] *)

Module Status.

(** [GET /api/download/status/{track_id}] *)
Definition get_download_status (st : App.State) (track_id : string)
  : App.Response + App.JobRecord :=
  match App.download_status st !! track_id with
  | None => inl (App.HTTPException 404 "Download not found")
  | Some record => inr record
  end.

(** [GET /api/download/album/status/{album_id}] *)
Definition get_album_download_status (st : App.State) (album_id : string)
  : App.Response + App.AlbumRecord :=
  match App.album_download_status st !! album_id with
  | None => inl (App.HTTPException 404 "Album download not found")
  | Some record => inr record
  end.

End Status.

(** ** Vocabulary of the further properties *)

(** A string of decimal digits and the number it writes. *)
Definition all_digits (s : string) : bool :=
  forallb Py.isdigit (list_ascii_of_string s).

Definition decimal (s : string) : Z :=
  fold_left (fun acc c => (acc * 10 + Py.digit_value c)%Z) (list_ascii_of_string s) 0%Z.

(** [" ".join(parts)] *)
Fixpoint join_space (parts : list string) : string :=
  match parts with
  | [] => ""
  | [p] => p
  | p :: rest => p ++ " " ++ join_space rest
  end.

(** No character of the string is whitespace. *)
Definition no_space (s : string) : bool :=
  forallb (fun c => negb (Py.isspace c)) (list_ascii_of_string s).

(** The number of colons of a string. *)
Fixpoint count_colons (s : string) : nat :=
  match s with
  | EmptyString => 0
  | String c s' => (if Ascii.eqb c ":" then 1 else 0) + count_colons s'
  end.

(** The raw entries that carry a non-empty [videoId]. *)
Definition has_video_id (res : Scoring.RawResult) : bool :=
  negb (String.eqb (Scoring.or_empty (Scoring.res_videoId res)) "").

(** How a run of the track orchestration ends: with the status of its
    last write. *)
Definition run_status (temp_dir OUTPUT_FORMAT : string) (w : App.Collaborators)
    (track_id location : string) : string :=
  match rev (fst (App.download_and_process temp_dir OUTPUT_FORMAT w
                                           track_id location None)) with
  | r :: _ => App.status r
  | [] => ""
  end.

(** The number of member tracks whose run ends [completed], task number
    [i + k] serving the [k]-th of them. *)
Fixpoint completed_runs (temp_dir OUTPUT_FORMAT : string)
    (ws : nat -> App.Collaborators) (location : string) (i : nat)
    (ids : list string) : Z :=
  match ids with
  | [] => 0
  | t :: rest =>
      ((if String.eqb (run_status temp_dir OUTPUT_FORMAT (ws i) t location) "completed"
        then 1 else 0)
       + completed_runs temp_dir OUTPUT_FORMAT ws location (S i) rest)%Z
  end.

(** A block [(i, j, k)] of the matcher that lies inside the window
    [alo, ahi) x [blo, bhi). *)
Definition in_window (alo ahi blo bhi : nat) (m : nat * nat * nat) : Prop :=
  let '(i, j, k) := m in
  (alo <= i /\ i + k <= ahi /\ blo <= j /\ j + k <= bhi)%nat.

(** The lengths the matcher records for a row: none of the blocks they end
    starts before the window. *)
Definition row_ok (alo blo bound : nat) (j2len : list (nat * nat)) : Prop :=
  Forall (fun p => (blo <= fst p /\ snd p + blo <= fst p + 1
                    /\ snd p + alo <= bound)%nat) j2len.

(** * Properties *)

Import Scoring.

Local Open Scope Q_scope.

(** ** Duration signal *)

Lemma Qle_bool_false (x y : Q) : Qle_bool x y = false -> y < x.
Proof.
  intros H. apply Qnot_le_lt. intros Hle.
  apply Qle_bool_iff in Hle. congruence.
Qed.

(** The five buckets as a function of the distance, as both the source
    and the spec write them. *)
Lemma bucket_cases (d : Q) :
  let b := if Qle_bool d 5 then 1
           else if Qle_bool d 15 then 0.85
           else if Qle_bool d 30 then 0.65
           else if Qle_bool d 60 then 0.35 else 0 in
  (d <= 5 -> b = 1) /\ (5 < d <= 15 -> b = 0.85) /\
  (15 < d <= 30 -> b = 0.65) /\ (30 < d <= 60 -> b = 0.35) /\
  (60 < d -> b = 0).
Proof.
  cbv zeta.
  destruct (Qle_bool d 5) eqn:H5; [apply Qle_bool_iff in H5 | apply Qle_bool_false in H5];
  (destruct (Qle_bool d 15) eqn:H15; [apply Qle_bool_iff in H15 | apply Qle_bool_false in H15]);
  (destruct (Qle_bool d 30) eqn:H30; [apply Qle_bool_iff in H30 | apply Qle_bool_false in H30]);
  (destruct (Qle_bool d 60) eqn:H60; [apply Qle_bool_iff in H60 | apply Qle_bool_false in H60]);
  repeat split; intros; try reflexivity; exfalso; lra.
Qed.

Lemma floor_at_one_second (ms : Z) :
  Qmax 1 (Qmake ms 1000) == Qmake (Z.max 1000 ms) 1000.
Proof.
  destruct (Z.max_spec 1000 ms) as [[Hlt ->] | [Hle ->]].
  - apply Q.max_r. unfold Qle. simpl. lia.
  - rewrite Q.max_l.
    + unfold Qeq. simpl. lia.
    + unfold Qle. simpl. lia.
Qed.

Lemma duration_score_floor (ms : Z) (s : string) :
  (0 < ms)%Z ->
  duration_score (Some ms) s = duration_score_spec (Some (Z.max 1000 ms)) s.
Proof.
  intros Hpos. destruct ms as [|p|p]; try lia.
  unfold duration_score, duration_score_spec.
  destruct (parse_duration_to_seconds s) as [y|]; [|reflexivity].
  cbv zeta.
  assert (E : forall k, Qle_bool (Qabs (Qmax 1 (Qmake (Z.pos p) 1000) - inject_Z y)) k
                        = Qle_bool (Qabs (Qmake (Z.max 1000 (Z.pos p)) 1000 - inject_Z y)) k).
  { intros k. rewrite (floor_at_one_second (Z.pos p)). reflexivity. }
  rewrite !E. reflexivity.
Qed.

(** C3 (as the code has it): the score is the neutral 0.5 when the
    trusted duration is absent or zero, or the candidate's duration does
    not parse; otherwise it is the bucket of the distance between the
    parsed duration and the trusted one taken as at least one second:
    1.0 up to 5 s, 0.85 up to 15 s, 0.65 up to 30 s, 0.35 up to 60 s and
    0.0 beyond, every boundary belonging to the bucket below it.  From
    one second of trusted duration on, this is the spec's score. *)
Theorem duration_score_buckets (ms : option Z) (s : string) :
  (ms = None \/ ms = Some 0%Z \/ parse_duration_to_seconds s = None ->
   duration_score ms s = 0.5) /\
  (forall m y, ms = Some m -> m <> 0%Z -> parse_duration_to_seconds s = Some y ->
     let delta := Qabs (Qmax 1 (Qmake m 1000) - inject_Z y) in
     (delta <= 5 -> duration_score ms s = 1) /\
     (5 < delta <= 15 -> duration_score ms s = 0.85) /\
     (15 < delta <= 30 -> duration_score ms s = 0.65) /\
     (30 < delta <= 60 -> duration_score ms s = 0.35) /\
     (60 < delta -> duration_score ms s = 0)) /\
  (forall m, ms = Some m -> (1000 <= m)%Z ->
     duration_score ms s = duration_score_spec ms s).
Proof.
  split; [|split].
  - intros [-> | [-> | Hparse]]; try reflexivity.
    unfold duration_score. rewrite Hparse.
    destruct ms as [[|p|p]|]; reflexivity.
  - intros m y -> Hm Hparse.
    assert (E : duration_score (Some m) s =
                let d := Qabs (Qmax 1 (Qmake m 1000) - inject_Z y) in
                if Qle_bool d 5 then 1
                else if Qle_bool d 15 then 0.85
                else if Qle_bool d 30 then 0.65
                else if Qle_bool d 60 then 0.35 else 0).
    { unfold duration_score. rewrite Hparse. destruct m; [lia | reflexivity..]. }
    rewrite E. apply bucket_cases.
  - intros m -> Hm. rewrite duration_score_floor by lia.
    rewrite Z.max_r by lia. reflexivity.
Qed.

Lemma duration_score_buckets_witness :
  duration_score (Some 233713%Z) "3:54" = 1 /\
  duration_score (Some 233713%Z) "4:10" = 0.65.
Proof.
  pose proof (proj1 (proj2 (duration_score_buckets (Some 233713%Z) "3:54"))
                233713%Z 234%Z eq_refl ltac:(discriminate) eq_refl) as Ha.
  pose proof (proj1 (proj2 (duration_score_buckets (Some 233713%Z) "4:10"))
                233713%Z 250%Z eq_refl ltac:(discriminate) eq_refl) as Hb.
  cbv zeta in Ha, Hb. split.
  - apply Ha. apply Qle_bool_iff. vm_compute. reflexivity.
  - apply Hb. split.
    + apply Qle_bool_false. vm_compute. reflexivity.
    + apply Qle_bool_iff. vm_compute. reflexivity.
Defined.

(** C3 as stated fails below one second of trusted duration: for a
    500 ms track and a candidate of [0:06] the distance is 5.5 s, which
    the spec puts in the 0.85 bucket, while the source compares one
    second with six and answers 1.0. *)
Lemma duration_score_spec_counterexample :
  duration_score_spec (Some 500%Z) "0:06" = 0.85 /\
  duration_score (Some 500%Z) "0:06" = 1 /\
  ~ duration_score (Some 500%Z) "0:06" == duration_score_spec (Some 500%Z) "0:06".
Proof.
  repeat split; try (vm_compute; reflexivity).
  vm_compute. discriminate.
Qed.

(** C9: an absent trusted duration and one of exactly 0 ms both yield the
    neutral 0.5; a positive trusted duration enters the distance as
    [max(1000, ms)] milliseconds, so that all trusted durations below
    1000 ms score like one second. *)
Theorem duration_zero_is_unknown_and_floor (s : string) :
  duration_score None s = 0.5 /\
  duration_score (Some 0%Z) s = 0.5 /\
  (forall ms, (0 < ms)%Z ->
     duration_score (Some ms) s = duration_score_spec (Some (Z.max 1000 ms)) s) /\
  (forall ms, (0 < ms < 1000)%Z ->
     duration_score (Some ms) s = duration_score (Some 1000%Z) s).
Proof.
  repeat split; try reflexivity.
  - intros ms Hpos. apply duration_score_floor. exact Hpos.
  - intros ms [Hlo Hhi].
    rewrite (duration_score_floor ms) by lia.
    rewrite (duration_score_floor 1000) by lia.
    rewrite Z.max_l by lia. reflexivity.
Qed.

Lemma duration_zero_is_unknown_and_floor_witness :
  duration_score (Some 0%Z) "0:05" = 0.5 /\
  duration_score (Some 1%Z) "0:05" = duration_score (Some 1000%Z) "0:05" /\
  duration_score (Some 999%Z) "0:07" = 0.85.
Proof.
  destruct (duration_zero_is_unknown_and_floor "0:05") as (_ & Hzero & _ & Hfloor).
  destruct (duration_zero_is_unknown_and_floor "0:07") as (_ & _ & Hmax & _).
  split; [exact Hzero | split].
  - apply Hfloor. lia.
  - rewrite Hmax by lia. vm_compute. reflexivity.
Defined.

(** ** Tokenizer *)

Lemma append_cons (c : ascii) (a b : string) :
  (String c a ++ b)%string = String c (a ++ b).
Proof. reflexivity. Qed.

Lemma append_empty_r (s : string) : (s ++ "")%string = s.
Proof.
  induction s as [|c s IH]; [reflexivity|].
  rewrite append_cons, IH. reflexivity.
Qed.

Lemma append_assoc (a b c : string) : ((a ++ b) ++ c)%string = (a ++ (b ++ c))%string.
Proof.
  induction a as [|x a IH]; [reflexivity|].
  rewrite !append_cons, IH. reflexivity.
Qed.

Lemma re_split_ws_cons (s : string) (in_ws : bool) :
  exists h t, re_split_ws s in_ws = h :: t.
Proof.
  revert in_ws. induction s as [|c s IH]; intros in_ws; simpl.
  - eauto.
  - destruct (Py.isspace c).
    + destruct in_ws; eauto.
    + destruct (IH false) as (h & t & ->). eauto.
Qed.

(** Entering the scan inside a whitespace run only saves a leading empty
    part. *)
Lemma re_split_ws_in_run (s : string) :
  filter nonempty (re_split_ws s true) = filter nonempty (re_split_ws s false).
Proof.
  destruct s as [|c s]; simpl; [reflexivity|].
  destruct (Py.isspace c); reflexivity.
Qed.

(** The parts of [re.split] that are not empty are the maximal runs of
    non-whitespace characters; [cur] is the run under construction. *)
Lemma whitespace_runs_re_split (s cur : string) :
  whitespace_runs s cur =
  match re_split_ws s false with
  | h :: t => filter nonempty ((cur ++ h)%string :: t)
  | [] => []
  end.
Proof.
  revert cur. induction s as [|c s IH]; intros cur.
  - simpl. rewrite append_empty_r. destruct cur; reflexivity.
  - simpl. destruct (Py.isspace c) eqn:Hc.
    + rewrite append_empty_r, re_split_ws_in_run.
      specialize (IH EmptyString).
      destruct (re_split_ws_cons s false) as (h & t & E).
      rewrite E in IH |- *. change ("" ++ h)%string with h in IH.
      rewrite <- IH. destruct cur; reflexivity.
    + rewrite IH.
      destruct (re_split_ws_cons s false) as (h & t & ->).
      rewrite append_assoc. reflexivity.
Qed.

Lemma tokens_are_runs (text : string) :
  tokens text = whitespace_runs (normalize_text text) "".
Proof.
  unfold tokens. rewrite whitespace_runs_re_split.
  destruct (re_split_ws_cons (normalize_text text) false) as (h & t & ->).
  reflexivity.
Qed.

(** C4: the token sequence the title score works on, that is [tokens]
    followed by the filter of its comprehension, is the spec's tokenizer:
    normalise, split on whitespace, drop the tokens of fewer than two
    characters and the token [feat]. *)
Theorem tokenize_refines_spec (text : string) :
  meaningful_tokens text = tokenize_spec text.
Proof.
  unfold meaningful_tokens, tokenize_spec.
  rewrite tokens_are_runs.
  apply filter_ext. intros t. unfold meaningful.
  f_equal. rewrite Nat.ltb_antisym, negb_involutive. reflexivity.
Qed.

(** [tokens] on its own only drops the empty parts: the short tokens and
    [feat] leave with the comprehension of [title_score]. *)
Example tokens_keeps_short_tokens :
  tokens "A feat B - Song" = ["a"; "feat"; "b"; "song"] /\
  meaningful_tokens "A feat B - Song" = ["song"].
Proof. split; vm_compute; reflexivity. Qed.

(** ** The stable descending sort *)

Section SortDescFacts.

Context {A : Type} (key : A -> Q) (rank : A -> Z).

Lemma insert_desc_perm (x : A) (l : list A) :
  Permutation (Py.insert_desc key x l) (x :: l).
Proof.
  induction l as [|y l IH]; simpl; [reflexivity|].
  destruct (Qle_bool (key y) (key x)); [reflexivity|].
  rewrite IH. apply perm_swap.
Qed.

Lemma sort_desc_perm (l : list A) : Permutation (Py.sort_desc key l) l.
Proof.
  induction l as [|x l IH]; simpl; [reflexivity|].
  rewrite insert_desc_perm. now constructor.
Qed.

Lemma in_front_key (x y : A) : in_front key rank x y -> key y <= key x.
Proof. intros [H | [H _]]; [apply Qlt_le_weak, H | rewrite H; apply Qle_refl]. Qed.

(** An element that comes from in front of the whole list keeps the list
    ordered by key and, among equal keys, by rank. *)
Lemma insert_desc_sorted (x : A) (l : list A) :
  StronglySorted (in_front key rank) l ->
  Forall (fun y => (rank x < rank y)%Z) l ->
  StronglySorted (in_front key rank) (Py.insert_desc key x l).
Proof.
  intros Hs Hr. induction Hs as [|y l Hs IH Hy]; simpl.
  - repeat constructor.
  - inversion Hr as [|? ? Hxy Hxl]; subst.
    destruct (Qle_bool (key y) (key x)) eqn:Hk.
    + apply Qle_bool_iff in Hk.
      constructor; [constructor; assumption|].
      assert (Hall : forall z, In z (y :: l) -> key z <= key x /\ (rank x < rank z)%Z).
      { intros z [<- | Hz]; [split; assumption|].
        rewrite Forall_forall in Hy, Hxl. split.
        - apply Qle_trans with (key y); [apply in_front_key; auto | exact Hk].
        - auto. }
      apply Forall_forall. intros z Hz. destruct (Hall z Hz) as [Hle Hlt].
      destruct (Qlt_le_dec (key z) (key x)) as [Hzx | Hxz].
      * left. exact Hzx.
      * right. split; [apply Qle_antisym; assumption | exact Hlt].
    + apply Qle_bool_false in Hk.
      constructor; [apply IH; assumption|].
      apply Forall_forall. intros z Hz.
      apply (Permutation_in _ (insert_desc_perm x l)) in Hz.
      destruct Hz as [<- | Hz]; [left; exact Hk|].
      rewrite Forall_forall in Hy. auto.
Qed.

Lemma sort_desc_sorted (l : list A) :
  StronglySorted (fun x y => (rank x < rank y)%Z) l ->
  StronglySorted (in_front key rank) (Py.sort_desc key l).
Proof.
  induction 1 as [|x l Hs IH Hx]; simpl; [constructor|].
  apply insert_desc_sorted; [exact IH|].
  apply Forall_forall. intros y Hy.
  apply (Permutation_in _ (sort_desc_perm l)) in Hy.
  rewrite Forall_forall in Hx. auto.
Qed.

End SortDescFacts.

(** ** Rounding to three decimals *)

Lemma round_half_even_cases (x : Q) :
  let r := round_half_even x in
  (r = Qfloor x /\ x - inject_Z (Qfloor x) <= 0.5) \/
  (r = (Qfloor x + 1)%Z /\ 0.5 <= x - inject_Z (Qfloor x)).
Proof.
  cbv zeta. unfold round_half_even.
  destruct (Qcompare (x - inject_Z (Qfloor x)) 0.5) eqn:Hc.
  - apply Qeq_alt in Hc.
    destruct (Z.even (Qfloor x)); [left | right]; split; try reflexivity;
      rewrite Hc; apply Qle_refl.
  - apply Qlt_alt in Hc. left. split; [reflexivity | apply Qlt_le_weak, Hc].
  - apply Qgt_alt in Hc. right. split; [reflexivity | apply Qlt_le_weak, Hc].
Qed.

Lemma inject_Z_succ (z : Z) : inject_Z (z + 1) == inject_Z z + 1.
Proof. rewrite inject_Z_plus. reflexivity. Qed.

(** Rounding moves a score by at most half a thousandth. *)
Lemma round3_close (x : Q) : Qabs (round3 x - x) <= 1 # 2000.
Proof.
  unfold round3.
  pose proof (Qfloor_le (x * 1000)) as Hlo.
  pose proof (Qlt_floor (x * 1000)) as Hhi.
  rewrite inject_Z_succ in Hhi.
  assert (E : forall z, Qmake z 1000 == inject_Z z * (1 # 1000)).
  { intros z. unfold Qeq, Qmult, inject_Z. simpl. lia. }
  apply Qabs_Qle_condition.
  destruct (round_half_even_cases (x * 1000)) as [[-> H] | [-> H]];
    rewrite E; [|rewrite inject_Z_succ]; split; lra.
Qed.

Lemma round3_unit (x : Q) : 0 <= x <= 1 -> 0 <= round3 x <= 1.
Proof.
  intros [H0 H1]. unfold round3.
  pose proof (Qfloor_le (x * 1000)) as Hlo.
  pose proof (Qlt_floor (x * 1000)) as Hhi.
  rewrite inject_Z_succ in Hhi.
  assert (Hf0 : (0 <= Qfloor (x * 1000))%Z).
  { assert (inject_Z (-1) < inject_Z (Qfloor (x * 1000))) as Hlt
      by (change (inject_Z (-1)) with (-1); lra).
    rewrite <- Zlt_Qlt in Hlt. lia. }
  assert (Hr : (0 <= round_half_even (x * 1000) <= 1000)%Z).
  { destruct (round_half_even_cases (x * 1000)) as [[-> H] | [-> H]].
    - split; [exact Hf0|].
      rewrite Zle_Qle. change (inject_Z 1000) with 1000. lra.
    - split; [lia|].
      assert (inject_Z (Qfloor (x * 1000)) < inject_Z 1000) as Hlt
        by (change (inject_Z 1000) with 1000; lra).
      rewrite <- Zlt_Qlt in Hlt. lia. }
  unfold Qle. simpl. lia.
Qed.

Lemma clamp01_unit (x : Q) : 0 <= clamp01 x <= 1.
Proof.
  unfold clamp01. split.
  - apply Q.le_max_l.
  - apply Q.max_lub; [lra | apply Q.le_min_r].
Qed.

(** ** The scorer *)

Lemma exp_stand_in_increasing (x y : Q) : x < y -> exp_stand_in x < exp_stand_in y.
Proof.
  intros Hxy. unfold exp_stand_in.
  destruct (Qle_bool 0 x) eqn:Hx; [apply Qle_bool_iff in Hx | apply Qle_bool_false in Hx];
  (destruct (Qle_bool 0 y) eqn:Hy; [apply Qle_bool_iff in Hy | apply Qle_bool_false in Hy]).
  - lra.
  - lra.
  - apply Qlt_le_trans with 1; [|lra].
    apply Qlt_shift_inv_r; lra.
  - apply -> Qinv_lt_contravar; lra.
Qed.

Section ScorerFacts.

Variable exp : Q -> Q.
Variables (name : string) (artists : list string) (ms : option Z) (strength : Q).

Lemma score_one_fields (i : Z) (res : RawResult) (c : ScoredCandidate) :
  score_one exp name artists ms strength i res = Some c ->
  idx c = i /\
  video_id c = or_empty (res_videoId res) /\ video_id c <> "" /\
  final c = round3 (clamp01 (raw_sum exp name artists ms strength c)) /\
  rank_s c = round3 (rank_prior exp i strength).
Proof.
  unfold score_one, raw_sum.
  destruct (String.eqb (or_empty (res_videoId res)) "") eqn:Hv; [discriminate|].
  apply String.eqb_neq in Hv.
  destruct (artist_score artists (normalize_artists_list (res_artists res))
                         (or_empty (res_title res))) as [[a_s matched] a_sims] eqn:Ha.
  intros [= <-]. cbn [idx video_id final rank_s title channel duration].
  rewrite Ha. unfold clamp01. cbn [fst].
  repeat split; try reflexivity; assumption.
Qed.

Lemma score_one_skips (i : Z) (res : RawResult) :
  score_one exp name artists ms strength i res = None <->
  or_empty (res_videoId res) = "".
Proof.
  unfold score_one.
  destruct (String.eqb (or_empty (res_videoId res)) "") eqn:Hv.
  - apply String.eqb_eq in Hv. tauto.
  - apply String.eqb_neq in Hv.
    destruct (artist_score _ _ _) as [[? ?] ?]. split; [discriminate | tauto].
Qed.

(** The candidates of the loop are the retained entries, each scored at
    its position in the raw list. *)
Lemma score_loop_in (i : Z) (results : list RawResult) (c : ScoredCandidate) :
  In c (score_loop exp name artists ms strength i results) <->
  exists k res, nth_error results k = Some res /\
                score_one exp name artists ms strength (i + Z.of_nat k) res = Some c.
Proof.
  revert i. induction results as [|res rest IH]; intros i; simpl.
  - split; [tauto | intros (k & r & H & _); destruct k; discriminate].
  - split.
    + intros H.
      destruct (score_one exp name artists ms strength i res) as [c0|] eqn:E.
      * destruct H as [<- | H].
        -- exists 0%nat, res. rewrite Z.add_0_r. auto.
        -- apply IH in H. destruct H as (k & r & Hk & Hs).
           exists (S k), r. split; [exact Hk|].
           rewrite <- Hs. f_equal. lia.
      * apply IH in H. destruct H as (k & r & Hk & Hs).
        exists (S k), r. split; [exact Hk|].
        rewrite <- Hs. f_equal. lia.
    + intros (k & r & Hk & Hs). destruct k as [|k]; simpl in Hk.
      * injection Hk as ->. rewrite Z.add_0_r in Hs. rewrite Hs. left. reflexivity.
      * assert (In c (score_loop exp name artists ms strength (i + 1) rest)) as Hin.
        { apply IH. exists k, r. split; [exact Hk|].
          rewrite <- Hs. f_equal. lia. }
        destruct (score_one exp name artists ms strength i res); [right|]; exact Hin.
Qed.

Lemma score_loop_ranks (i : Z) (results : list RawResult) :
  StronglySorted (fun c1 c2 => (idx c1 < idx c2)%Z)
                 (score_loop exp name artists ms strength i results).
Proof.
  revert i. induction results as [|res rest IH]; intros i; simpl; [constructor|].
  destruct (score_one exp name artists ms strength i res) as [c|] eqn:E; [|apply IH].
  constructor; [apply IH|].
  apply Forall_forall. intros c' Hc'.
  apply score_loop_in in Hc'. destruct Hc' as (k & r & _ & Hs).
  apply score_one_fields in E. apply score_one_fields in Hs.
  destruct E as [-> _]. destruct Hs as [-> _]. lia.
Qed.

Lemma score_results_in (results : list RawResult) (c : ScoredCandidate) :
  In c (score_results exp results name artists ms strength) <->
  In c (score_loop exp name artists ms strength 1 results).
Proof.
  unfold score_results. split; apply Permutation_in;
    [|symmetry]; apply sort_desc_perm.
Qed.

(** C1 (as the code has it): the final score of every scored candidate is
    the clamp to [0, 1] of the weighted sum of the five (unrounded)
    signals, rounded to three decimals; it lies in [0, 1] and is within
    half a thousandth of the clamped sum. *)
Theorem final_score_rounded_clamp (results : list RawResult) (c : ScoredCandidate) :
  In c (score_results exp results name artists ms strength) ->
  final c = round3 (clamp01 (raw_sum exp name artists ms strength c)) /\
  0 <= final c <= 1 /\
  Qabs (final c - clamp01 (raw_sum exp name artists ms strength c)) <= 1 # 2000.
Proof.
  intros Hin. apply score_results_in, score_loop_in in Hin.
  destruct Hin as (k & res & _ & Hs).
  apply score_one_fields in Hs. destruct Hs as (_ & _ & _ & Hf & _).
  rewrite Hf. split; [reflexivity | split].
  - apply round3_unit, clamp01_unit.
  - apply round3_close.
Qed.

(** C2: in the output every candidate stands in front of the candidates
    with a smaller final score and, among those with an equal final
    score, in front of the later ranks; the output is a rearrangement of
    the scored candidates. *)
Theorem score_results_sorted_stable (results : list RawResult) :
  StronglySorted
    (fun c1 c2 => final c2 < final c1 \/ (final c1 == final c2 /\ (idx c1 < idx c2)%Z))
    (score_results exp results name artists ms strength) /\
  Permutation (score_results exp results name artists ms strength)
              (score_loop exp name artists ms strength 1 results).
Proof.
  split.
  - apply (sort_desc_sorted final idx), score_loop_ranks.
  - apply sort_desc_perm.
Qed.

Lemma rank_prior_decreasing (i : Z) :
  (forall x y, x < y -> exp x < exp y) ->
  (1 <= i)%Z ->
  rank_prior exp (i + 1) strength < rank_prior exp i strength.
Proof.
  intros Hexp Hi. unfold rank_prior. apply Hexp.
  rewrite !Z.max_r by lia.
  assert (Hd : 0 < Qmax 1e-6 strength).
  { apply Qlt_le_trans with 1e-6; [reflexivity | apply Q.le_max_l]. }
  unfold Qdiv. apply Qmult_lt_r; [apply Qinv_lt_0_compat, Hd|].
  apply Qopp_lt_compat. rewrite <- Zlt_Qlt. lia.
Qed.

(** C10: every scored candidate is the entry of the raw list at position
    [idx] (counted from 1, skipped entries included), carries a non-empty
    [videoId], and takes its rank prior at that position; an entry
    without [videoId] yields no candidate, any other entry yields one;
    and with an increasing exponential the prior of a rank is strictly
    below the prior of the rank before it, so that a skipped entry lowers
    the prior of what follows. *)
Theorem skipped_entries_keep_rank (results : list RawResult) :
  (forall c, In c (score_results exp results name artists ms strength) ->
     exists res,
       nth_error results (Z.to_nat (idx c - 1)) = Some res /\
       (1 <= idx c)%Z /\
       or_empty (res_videoId res) = video_id c /\ video_id c <> "" /\
       rank_s c = round3 (rank_prior exp (idx c) strength) /\
       final c = round3 (clamp01 (raw_sum exp name artists ms strength c))) /\
  (forall k res, nth_error results k = Some res ->
     (or_empty (res_videoId res) = "" ->
      forall c, In c (score_results exp results name artists ms strength) ->
                idx c <> (Z.of_nat k + 1)%Z) /\
     (or_empty (res_videoId res) <> "" ->
      exists c, In c (score_results exp results name artists ms strength) /\
                idx c = (Z.of_nat k + 1)%Z /\
                video_id c = or_empty (res_videoId res))) /\
  ((forall x y, x < y -> exp x < exp y) ->
   forall i, (1 <= i)%Z ->
             rank_prior exp (i + 1) strength < rank_prior exp i strength).
Proof.
  split; [|split].
  - intros c Hc. apply score_results_in, score_loop_in in Hc.
    destruct Hc as (k & res & Hk & Hs).
    apply score_one_fields in Hs. destruct Hs as (Hi & Hv & Hne & Hf & Hr).
    exists res. rewrite Hi.
    replace (Z.to_nat (1 + Z.of_nat k - 1)) with k by lia.
    repeat split; auto; lia.
  - intros k res Hk. split.
    + intros Hskip c Hc Hidx. apply score_results_in, score_loop_in in Hc.
      destruct Hc as (k' & res' & Hk' & Hs).
      pose proof (score_one_fields _ _ _ Hs) as (Hi & _).
      assert (k' = k) as -> by lia.
      rewrite Hk in Hk'. injection Hk' as <-.
      apply (score_one_skips (1 + Z.of_nat k)) in Hskip. congruence.
    + intros Hkeep.
      destruct (score_one exp name artists ms strength (1 + Z.of_nat k) res)
        as [c|] eqn:Hs; [|apply score_one_skips in Hs; contradiction].
      exists c. split.
      * apply score_results_in, score_loop_in. eauto.
      * apply score_one_fields in Hs. destruct Hs as (Hi & Hv & _).
        split; [lia | exact Hv].
  - intros Hexp i Hi. apply rank_prior_decreasing; assumption.
Qed.

End ScorerFacts.

Lemma final_score_rounded_clamp_witness :
  exists c,
    hd_error (score_results exp_stand_in payload_with_gap "abc" [] None 6) = Some c /\
    final c = round3 (clamp01 (raw_sum exp_stand_in "abc" [] None 6 c)) /\
    0 <= final c <= 1.
Proof.
  eexists. split; [vm_compute; reflexivity|].
  match goal with
  | |- final ?c = _ /\ _ =>
      destruct (final_score_rounded_clamp exp_stand_in "abc" [] None 6
                  payload_with_gap c) as (Hf & Hu & _)
  end.
  - vm_compute. left. reflexivity.
  - split; assumption.
Defined.

(** C1 as stated fails: for the trusted title [abc] without artists or
    duration and the single candidate [cxyz] at rank 1, the clamped sum is
    0.45 * 2/7 + 0.20 * 0.5 + 0.10 * 1 = 23/70, and the final score of the
    candidate is 0.329. *)
Lemma final_score_unrounded_counterexample :
  exists c,
    score_results exp_stand_in [entry (Some "v") "cxyz" ""] "abc" [] None 6 = [c] /\
    clamp01 (raw_sum exp_stand_in "abc" [] None 6 c) == 23 # 70 /\
    final c == 0.329 /\
    ~ final c == clamp01 (raw_sum exp_stand_in "abc" [] None 6 c).
Proof.
  eexists. split; [vm_compute; reflexivity|].
  split; [vm_compute; reflexivity|].
  split; [vm_compute; reflexivity|].
  vm_compute. discriminate.
Qed.

Lemma skipped_entries_keep_rank_witness :
  map idx (score_results exp_stand_in payload_with_gap "abc" [] None 6) = [1; 3]%Z /\
  rank_prior exp_stand_in 3 6 < rank_prior exp_stand_in 2 6.
Proof.
  split; [vm_compute; reflexivity|].
  apply (proj2 (proj2 (skipped_entries_keep_rank exp_stand_in "abc" [] None 6
                         payload_with_gap))
               exp_stand_in_increasing 2%Z).
  lia.
Defined.

(** ** Track orchestration *)

Import App.

Local Open Scope Z_scope.

(** Case analysis on every collaborator call and test of the
    orchestration. *)
Ltac orchestrate :=
  unfold download_and_process, copy_to_navidrome;
  repeat
    (cbn [try_except bind call set_status ret fst snd app negb
          dr_success dr_file_path dr_error nr_success nr_error];
     match goal with
     | |- context [spotify_service ?w] => destruct (spotify_service w)
     | |- context [get_track_details ?sp ?t] => destruct (get_track_details sp t)
     | |- context [String.eqb ?l "navidrome"] => destruct (String.eqb l "navidrome")
     | |- context [mkdir ?w ?d] => destruct (mkdir w d)
     | |- context [get_download_path ?w ?a ?b ?c] => destruct (get_download_path w a b c)
     | |- context [search_and_download ?w ?a ?b ?c ?d ?e] =>
         destruct (search_and_download w a b c d e) as [[[] ? []]|]
     | |- context [apply_metadata ?w ?a ?b] => destruct (apply_metadata w a b)
     | |- context [get_target_path ?w ?a ?b] => destruct (get_target_path w a b)
     | |- context [copy2 ?w ?a ?b] => destruct (copy2 w a b)
     | |- context [path_exists ?w ?a] => destruct (path_exists w a)
     | |- context [remove ?w ?a] => destruct (remove w a)
     | |- context [finalize_track ?w ?a] => destruct (finalize_track w a) as [[[] ?]|]
     end);
  cbn [try_except bind call set_status ret fst snd app negb
          dr_success dr_file_path dr_error nr_success nr_error].

Section TrackOrchestration.

Variables (temp_dir OUTPUT_FORMAT : string) (w : Collaborators).
Variables (track_id location : string) (video_id : option string).

(** The background task catches every exception. *)
Lemma download_and_process_returns :
  snd (download_and_process temp_dir OUTPUT_FORMAT w track_id location video_id)
  = Returns tt.
Proof.
  orchestrate;
    repeat match goal with u : unit |- _ => destruct u end; reflexivity.
Qed.

(** C5: along the history of a job submitted with progress 0, the
    progress goes down only on a write of status [error], and every such
    write sets it to 0; a run that ends [completed] has gone through
    0, 10, 15, 30, 85, (90 for the library target,) 100. *)
Theorem progress_monotone_until_error (submitted : JobRecord) :
  progress submitted = 0 ->
  Sorted progress_step (job_history temp_dir OUTPUT_FORMAT w track_id location video_id submitted) /\
  (forall r, In r (job_history temp_dir OUTPUT_FORMAT w track_id location video_id submitted) -> 0 <= progress r <= 100) /\
  (status (last (job_history temp_dir OUTPUT_FORMAT w track_id location video_id submitted) submitted) = "completed" ->
   map progress (job_history temp_dir OUTPUT_FORMAT w track_id location video_id submitted) = happy_path location).
Proof.
  intros H0. unfold job_history, happy_path, progress_step.
  orchestrate;
    (split; [|split]);
    try (intros r Hr; cbn [In] in Hr;
         repeat (destruct Hr as [<- | Hr]; [cbn; lia|]); contradiction);
    try (cbn; rewrite ?H0; intros; (reflexivity || discriminate));
    repeat (constructor; cbn; try (split; intros; (reflexivity || lia || discriminate))).
Qed.

End TrackOrchestration.

(** ** Album aggregation *)

Lemma album_settled_running (n k : Z) (a : AlbumRecord) :
  album_settled n k a -> album_running n k a.
Proof. intros (Ht & Hk & Hiff & _). repeat split; auto. intros H. apply Hiff in H. lia. Qed.

Lemma count_track_settles (n k : Z) (job : option JobRecord) (a : AlbumRecord)
    (t : option string) :
  album_running n k a ->
  album_settled n (k + 1) (count_track job (set_current_track a t)).
Proof.
  intros (Ht & Hk & Hc). unfold count_track.
  set (a1 := match job with
             | Some j => if String.eqb (status j) "completed"
                         then add_completed (set_current_track a t)
                         else add_failed (set_current_track a t)
             | None => add_failed (set_current_track a t)
             end).
  assert (H1 : total_tracks a1 = n /\
               completed_tracks a1 + failed_tracks a1 = k + 1 /\
               album_status a1 = album_status a).
  { subst a1. destruct job as [j|]; [destruct (String.eqb (status j) "completed")|];
      cbn; repeat split; lia. }
  destruct H1 as (Ht1 & Hk1 & Hs1).
  destruct (total_tracks a1 <=? completed_tracks a1 + failed_tracks a1) eqn:Hdone.
  - apply Z.leb_le in Hdone. unfold album_settled. cbn. repeat split; auto; lia.
  - apply Z.leb_gt in Hdone. unfold album_settled. repeat split; auto.
    + intros Hcompleted. rewrite Hs1 in Hcompleted. apply Hc in Hcompleted. lia.
    + lia.
    + intros Hcompleted. rewrite Hs1 in Hcompleted. apply Hc in Hcompleted. lia.
Qed.

Section AlbumRun.

Variables (temp_dir OUTPUT_FORMAT : string).

Lemma download_album_track_counts (w : Collaborators)
    (track_id location album_id : string) (st : State) (a : AlbumRecord) :
  album_download_status st !! album_id = Some a ->
  exists job,
    album_download_status
      (download_album_track temp_dir OUTPUT_FORMAT w track_id location album_id st)
      !! album_id
    = Some (count_track job (set_current_track a (Some track_id))).
Proof.
  intros Ha. unfold download_album_track. rewrite Ha.
  pose proof (download_and_process_returns temp_dir OUTPUT_FORMAT w
                track_id location None) as Hret.
  destruct (download_and_process temp_dir OUTPUT_FORMAT w track_id location None)
    as [log result].
  cbn [snd] in Hret. subst result.
  cbn [album_download_status]. rewrite lookup_insert_eq.
  eexists. rewrite lookup_insert_eq. reflexivity.
Qed.

Lemma run_album_tasks (ws : nat -> Collaborators) (location album_id : string)
    (n : Z) (ids : list string) :
  forall (i : nat) (k : Z) (st : State) (a : AlbumRecord),
    ids <> [] ->
    album_download_status st !! album_id = Some a ->
    album_running n k a ->
    exists a',
      album_download_status
        (run_tasks temp_dir OUTPUT_FORMAT ws i (map (album_task location album_id) ids) st)
        !! album_id = Some a' /\
      album_settled n (k + Z.of_nat (length ids)) a'.
Proof.
  induction ids as [|t ids IH]; intros i k st a Hne Ha Hrun; [contradiction|].
  cbn [map run_tasks album_task].
  destruct (download_album_track_counts (ws i) t location album_id st a Ha)
    as (job & Hstep).
  pose proof (count_track_settles n k job a (Some t) Hrun) as Hset.
  destruct ids as [|t' ids'].
  - cbn [map run_tasks length]. eexists. split; [exact Hstep|].
    replace (k + Z.of_nat 1) with (k + 1) by lia. exact Hset.
  - destruct (IH (S i) (k + 1) _ _ ltac:(discriminate) Hstep
                 (album_settled_running _ _ _ Hset)) as (a' & Ha' & Hs').
    exists a'. split; [exact Ha'|].
    replace (k + Z.of_nat (length (t :: t' :: ids')))
      with (k + 1 + Z.of_nat (length (t' :: ids'))) by (cbn [length]; lia).
    exact Hs'.
Qed.

(** C6: once an album is queued, after each of its member tracks has run
    (the first [k] background tasks, for every [k] from 1 to the number of
    tracks) the album record has counted [k] tracks, its status is
    [completed] exactly when completed + failed has reached the total, and
    then [current_track] is cleared. *)
Theorem album_completed_iff_all_counted (w : Collaborators) (ws : nat -> Collaborators)
    (album_id : string) (location : option string) (st : State) (k : nat) :
  let queued_state := snd (fst (download_album w album_id location st)) in
  let tasks := snd (download_album w album_id location st) in
  (0 < k <= length tasks)%nat ->
  exists a,
    album_download_status
      (run_tasks temp_dir OUTPUT_FORMAT ws 0 (firstn k tasks) queued_state)
      !! album_id = Some a /\
    total_tracks a = Z.of_nat (length tasks) /\
    completed_tracks a + failed_tracks a = Z.of_nat k /\
    (album_status a = "completed" <->
     total_tracks a <= completed_tracks a + failed_tracks a) /\
    (album_status a = "completed" -> current_track a = None).
Proof.
  unfold download_album.
  destruct (spotify_service w) as [sp|]; [|cbn; lia].
  destruct (get_album_details sp album_id) as [album|]; [|cbn; lia].
  cbv zeta. cbn [fst snd]. rewrite length_map, length_map. intros Hk.
  set (ids := map track_id_of (album_tracks album)).
  assert (Hlen : length ids = length (album_tracks album)) by apply length_map.
  rewrite firstn_map.
  change (fun t => TaskDownloadAlbumTrack t (valid_location location) album_id)
    with (album_task (valid_location location) album_id).
  match goal with
  | |- context [run_tasks _ _ _ _ _ ?s] => set (st0 := s)
  end.
  destruct (run_album_tasks ws (valid_location location) album_id
              (Z.of_nat (length (album_tracks album))) (firstn k ids) 0%nat 0 st0
              {| album_status := "downloading";
                 album_name := album_name_of album;
                 album_artist := album_artist_of album;
                 total_tracks := Z.of_nat (length (album_tracks album));
                 completed_tracks := 0; failed_tracks := 0;
                 current_track := None; track_ids := ids |})
    as (a & Ha & Ht & Hc & Hiff & Hcur).
  - intros E. apply (f_equal (@length string)) in E.
    rewrite length_firstn in E. cbn in E. lia.
  - subst st0. cbn [album_download_status]. apply lookup_insert_eq.
  - repeat split; cbn; try lia. discriminate.
  - exists a. rewrite length_firstn in Hc.
    repeat split; auto; try lia; apply Hiff.
Qed.

End AlbumRun.

(** ** Retrieval of a completed file *)

Section RetrievalFacts.

Variable temp_dir_path : string.
Variables (st : State) (os : OS) (track_id filename : string).
Variable background_tasks : list BackgroundTask.

(** C7: the request is refused with 404 when the job is unknown, with 400
    when the job is not [completed], with 404 when a completed job has no
    file on disk, and with 400 when the decoded file name differs from
    the base name of the produced file; every refusal leaves the
    background tasks as they were, so nothing is streamed and no deletion
    is scheduled. *)
Theorem download_file_refusals :
  let response := fst (download_file temp_dir_path st os track_id filename background_tasks) in
  let scheduled := snd (download_file temp_dir_path st os track_id filename background_tasks) in
  (download_status st !! track_id = None ->
   response = HTTPException 404 "Download not found") /\
  (forall job, download_status st !! track_id = Some job ->
     status job <> "completed" ->
     response = HTTPException 400 "File not ready for download") /\
  (forall job, download_status st !! track_id = Some job ->
     status job = "completed" ->
     (file_path job = None \/ file_path job = Some "" \/
      exists path, file_path job = Some path /\ path ∉ files os) ->
     response = HTTPException 404 "File not found") /\
  (forall job path, download_status st !! track_id = Some job ->
     status job = "completed" ->
     file_path job = Some path -> path <> "" -> path ∈ files os ->
     Lib.unquote filename <> Lib.basename path ->
     response = HTTPException 400
                  ("Invalid filename. Expected: " ++ Lib.basename path
                   ++ ", Got: " ++ Lib.unquote filename)) /\
  (forall code detail, response = HTTPException code detail ->
     scheduled = background_tasks).
Proof.
  cbv zeta. unfold download_file. repeat apply conj.
  - intros ->. reflexivity.
  - intros job -> Hst. apply String.eqb_neq in Hst. rewrite Hst. reflexivity.
  - intros job -> Hst Hmissing. apply String.eqb_eq in Hst. rewrite Hst. cbn [negb].
    destruct Hmissing as [-> | [-> | (path & -> & Hpath)]]; try reflexivity.
    destruct path as [|c path]; [reflexivity|].
    rewrite bool_decide_eq_false_2 by exact Hpath. reflexivity.
  - intros job path -> Hst -> Hne Hpath Hname.
    apply String.eqb_eq in Hst. rewrite Hst. cbn [negb].
    destruct path as [|c path]; [contradiction|].
    rewrite bool_decide_eq_true_2 by exact Hpath. cbn [negb].
    assert (String.eqb (Lib.basename (String c path)) (Lib.unquote filename) = false)
      as -> by (apply String.eqb_neq; congruence).
    reflexivity.
  - intros code detail.
    destruct (download_status st !! track_id) as [job|]; [|reflexivity].
    destruct (negb (String.eqb (status job) "completed")); [reflexivity|].
    destruct (file_path job) as [[|c path]|]; try reflexivity.
    destruct (negb (bool_decide (String c path ∈ files os))); [reflexivity|].
    destruct (negb (String.eqb (Lib.basename (String c path)) (Lib.unquote filename)));
      [reflexivity | discriminate].
Qed.

End RetrievalFacts.

(** ** Clean-up after a retrieval *)

Lemma cleanup_temp_file_deletes (path : string) (os : OS) :
  clock (cleanup_temp_file path os) = clock os + 2 /\
  path ∉ files (cleanup_temp_file path os).
Proof.
  unfold cleanup_temp_file. cbn [files clock].
  case_bool_decide as Hexists; cbn [files clock]; (split; [reflexivity|]).
  - apply not_elem_of_difference. right. apply elem_of_singleton. reflexivity.
  - exact Hexists.
Qed.

(** ** Concrete runs *)

Lemma progress_monotone_until_error_witness :
  Sorted progress_step
    (job_history "downloads/temp" "mp3" sample_world "t1" "navidrome" None
                 (queued "Download queued for Navidrome server" None)) /\
  map progress
    (job_history "downloads/temp" "mp3" sample_world "t1" "navidrome" None
                 (queued "Download queued for Navidrome server" None))
  = [0; 10; 15; 30; 85; 90; 100] /\
  map progress
    (job_history "downloads/temp" "mp3" sample_world "missing" "local" None
                 (queued "Download queued for local downloads folder" None))
  = [0; 10; 0].
Proof.
  destruct (progress_monotone_until_error "downloads/temp" "mp3" sample_world
              "t1" "navidrome" None
              (queued "Download queued for Navidrome server" None) eq_refl)
    as (Hsorted & _ & Hhappy).
  split; [exact Hsorted | split].
  - apply Hhappy. vm_compute. reflexivity.
  - vm_compute. reflexivity.
Defined.

Lemma album_completed_iff_all_counted_witness :
  exists a,
    album_download_status
      (run_tasks "downloads/temp" "mp3" (fun _ => sample_world) 0
         (firstn 2 (snd (download_album sample_world "album1" (Some "local") empty_state)))
         (snd (fst (download_album sample_world "album1" (Some "local") empty_state))))
      !! "album1" = Some a /\
    total_tracks a = 2 /\
    completed_tracks a + failed_tracks a = 2 /\
    (album_status a = "completed" <->
     total_tracks a <= completed_tracks a + failed_tracks a) /\
    (album_status a = "completed" -> current_track a = None).
Proof.
  apply (album_completed_iff_all_counted "downloads/temp" "mp3" sample_world
           (fun _ => sample_world) "album1" (Some "local") empty_state 2).
  vm_compute. split; constructor; constructor.
Defined.

(** The album of the run above ends with one completed and one failed
    track. *)
Example album_one_completed_one_failed :
  option_map (fun a => (album_status a, completed_tracks a, failed_tracks a, current_track a))
    (album_download_status
       (run_tasks "downloads/temp" "mp3" (fun _ => sample_world) 0
          (snd (download_album sample_world "album1" (Some "local") empty_state))
          (snd (fst (download_album sample_world "album1" (Some "local") empty_state))))
       !! "album1")
  = Some ("completed", 1, 1, None).
Proof. vm_compute. reflexivity. Qed.

Lemma download_file_refusals_witness :
  fst (download_file "downloads/temp" staged_state staged_os "t1" "other.mp3" [])
  = HTTPException 400 "Invalid filename. Expected: song.mp3, Got: other.mp3" /\
  snd (download_file "downloads/temp" staged_state staged_os "t1" "other.mp3" []) = [] /\
  fst (download_file "downloads/temp" staged_state staged_os "unknown" "song.mp3" [])
  = HTTPException 404 "Download not found".
Proof.
  destruct (download_file_refusals "downloads/temp" staged_state staged_os
              "t1" "other.mp3" []) as (_ & _ & _ & Hname & Hnone).
  destruct (download_file_refusals "downloads/temp" staged_state staged_os
              "unknown" "song.mp3" []) as (Hunknown & _).
  assert (Hrefused :
            fst (download_file "downloads/temp" staged_state staged_os
                               "t1" "other.mp3" [])
            = HTTPException 400 "Invalid filename. Expected: song.mp3, Got: other.mp3").
  { apply (Hname _ staged_path eq_refl eq_refl eq_refl).
    - discriminate.
    - unfold staged_os. cbn [files]. set_solver.
    - vm_compute. discriminate. }
  split; [exact Hrefused | split].
  - exact (Hnone _ _ Hrefused).
  - apply Hunknown. reflexivity.
Defined.

(** C8 (the source departs from it): two retrievals of the staged file
    are both answered with the file, the deletion being scheduled in the
    same call that builds the first response; the scheduled task needs
    nothing but the path, and two seconds after it starts the file is
    gone, whether or not the second transfer has finished. *)
Theorem cleanup_runs_after_fixed_delay :
  let first := download_file "downloads/temp" staged_state staged_os "t1" "song.mp3" [] in
  let second := download_file "downloads/temp" staged_state staged_os "t1" "song.mp3" [] in
  snd first = [TaskCleanupTempFile staged_path] /\
  (exists disposition,
     fst second = FileResponse staged_path "audio/mpeg" "song.mp3" disposition) /\
  forall started,
    let os := cleanup_temp_file staged_path
                {| clock := started; files := files staged_os |} in
    clock os = started + 2 /\ staged_path ∉ files os.
Proof.
  cbv zeta. split; [vm_compute; reflexivity | split].
  - eexists. vm_compute. reflexivity.
  - intros started. apply cleanup_temp_file_deletes.
Qed.

(** * Further properties of the scorer *)

Local Open Scope Q_scope.

Lemma clamp01_floor (x lo : Q) : lo <= 1 -> lo <= x -> lo <= clamp01 x.
Proof.
  intros H1 Hx. unfold clamp01.
  apply Qle_trans with (Qmin x 1); [apply Q.min_glb; assumption | apply Q.le_max_r].
Qed.

Lemma prefix_refl (s : string) : String.prefix s s = true.
Proof.
  induction s as [|c s IH]; [reflexivity|].
  cbn. destruct (ascii_dec c c); [exact IH | contradiction].
Qed.

Lemma contains_refl (s : string) : Py.contains s s = true.
Proof. destruct s; unfold Py.contains; fold Py.contains; rewrite prefix_refl; reflexivity. Qed.

(** X1: the title score lies in [0, 1]; it is at least 0.85 as soon as the
    normalised trusted title is not empty and occurs in the normalised
    candidate title, in particular when both titles are the same. *)
Theorem title_score_unit_and_floor (spotify_title yt_title : string) :
  0 <= title_score spotify_title yt_title <= 1 /\
  (normalize_text spotify_title <> "" ->
   Py.contains (normalize_text spotify_title) (normalize_text yt_title) = true ->
   0.85 <= title_score spotify_title yt_title) /\
  (normalize_text spotify_title <> "" ->
   0.85 <= title_score spotify_title spotify_title).
Proof.
  assert (Hfloor : forall yt,
             normalize_text spotify_title <> "" ->
             Py.contains (normalize_text spotify_title) (normalize_text yt) = true ->
             0.85 <= title_score spotify_title yt).
  { intros yt Hne Hin. unfold title_score. cbv zeta. rewrite Hin.
    apply String.eqb_neq in Hne. rewrite Hne. cbn [negb andb].
    apply clamp01_floor; [discriminate | apply Q.le_max_r]. }
  split; [apply clamp01_unit | split].
  - apply Hfloor.
  - intros Hne. apply Hfloor; [exact Hne | apply contains_refl].
Qed.

Lemma title_score_unit_and_floor_witness :
  0.85 <= title_score "Shape of You"
            "Ed Sheeran - Shape of You (Official Music Video)".
Proof.
  apply (proj1 (proj2 (title_score_unit_and_floor "Shape of You"
           "Ed Sheeran - Shape of You (Official Music Video)"))).
  - vm_compute. discriminate.
  - vm_compute. reflexivity.
Defined.

Section SortDescOrder.

Context {A : Type} (key : A -> Q).

Lemma insert_desc_descending (x : A) (l : list A) :
  StronglySorted (fun a b => key b <= key a) l ->
  StronglySorted (fun a b => key b <= key a) (Py.insert_desc key x l).
Proof.
  intros Hs. induction Hs as [|y l Hs IH Hy]; simpl.
  - repeat constructor.
  - destruct (Qle_bool (key y) (key x)) eqn:Hk.
    + apply Qle_bool_iff in Hk.
      constructor; [constructor; assumption|].
      constructor; [exact Hk|].
      rewrite Forall_forall in Hy |- *. intros z Hz.
      apply Qle_trans with (key y); [apply Hy, Hz | exact Hk].
    + apply Qle_bool_false in Hk.
      constructor; [exact IH|].
      apply Forall_forall. intros z Hz.
      apply (Permutation_in _ (insert_desc_perm key x l)) in Hz.
      destruct Hz as [<- | Hz]; [apply Qlt_le_weak, Hk|].
      rewrite Forall_forall in Hy. apply Hy, Hz.
Qed.

Lemma sort_desc_descending (l : list A) :
  StronglySorted (fun a b => key b <= key a) (Py.sort_desc key l).
Proof.
  induction l as [|x l IH]; simpl; [constructor|].
  apply insert_desc_descending, IH.
Qed.

(** The first element of the sorted list carries the greatest key. *)
Lemma sort_desc_head_greatest (l : list A) (top : A) (rest : list A) (x : A) :
  Py.sort_desc key l = top :: rest -> In x l -> key x <= key top.
Proof.
  intros E Hx.
  pose proof (sort_desc_descending l) as Hs. rewrite E in Hs.
  apply (Permutation_in _ (Permutation_sym (sort_desc_perm key l))) in Hx.
  rewrite E in Hx. inversion Hs as [|? ? _ Hall]; subst.
  destruct Hx as [<- | Hx]; [apply Qle_refl|].
  rewrite Forall_forall in Hall. apply Hall, Hx.
Qed.

End SortDescOrder.

Lemma filter_length_le {A : Type} (p : A -> bool) (l : list A) :
  (length (filter p l) <= length l)%nat.
Proof.
  induction l as [|x l IH]; simpl; [lia|].
  destruct (p x); simpl; lia.
Qed.

Lemma filter_length_pos {A : Type} (p : A -> bool) (l : list A) (x : A) :
  In x l -> p x = true -> (1 <= length (filter p l))%nat.
Proof.
  intros Hx Hp. assert (In x (filter p l)) as Hin by (apply filter_In; auto).
  destruct (filter p l); [contradiction | simpl; lia].
Qed.

(** X2: the artist score lies in [0, 1]; the matched count never exceeds
    the number of trusted artists; the diagnostic list holds one
    similarity in [0, 1] per trusted artist, greatest first; without
    trusted artists the answer is (0, 0, []). *)
Theorem artist_score_shape (spotify_artists : list string)
    (yt_artists_text yt_title : string) :
  let r := artist_score spotify_artists yt_artists_text yt_title in
  0 <= fst (fst r) <= 1 /\
  (snd (fst r) <= length spotify_artists)%nat /\
  Permutation (map fst (snd r)) spotify_artists /\
  StronglySorted (fun p q => snd q <= snd p) (snd r) /\
  (forall p, In p (snd r) -> 0 <= snd p <= 1) /\
  (spotify_artists = [] -> r = (0, 0%nat, [])).
Proof.
  cbv zeta. unfold artist_score. cbv zeta.
  set (blob := (normalize_text yt_artists_text ++ " " ++ normalize_text yt_title)%string).
  set (f := fun a : string => _).
  set (per := map f spotify_artists).
  assert (Hperm : Permutation (map fst (Py.sort_desc snd per)) spotify_artists).
  { rewrite (sort_desc_perm snd per). subst per. rewrite map_map.
    subst f. cbn [fst]. rewrite map_id. reflexivity. }
  assert (Hsorted := sort_desc_descending snd per).
  assert (Hunit : forall p, In p (Py.sort_desc snd per) -> 0 <= snd p <= 1).
  { intros p Hp. apply (Permutation_in _ (sort_desc_perm snd per)) in Hp.
    subst per. apply in_map_iff in Hp. destruct Hp as (a & <- & _).
    subst f. cbn [snd]. apply clamp01_unit. }
  assert (Hlen : (length (filter (fun p => Qle_bool 0.75 (snd p)) per)
                  <= length spotify_artists)%nat).
  { etransitivity; [apply filter_length_le|]. subst per. rewrite length_map. lia. }
  destruct (Py.sort_desc snd per) as [|[a best] rest] eqn:E; cbn [fst snd].
  - repeat split; auto; try lia; try apply Qle_refl; try discriminate;
      try (intros; contradiction).
  - repeat split; auto; try apply clamp01_unit; try (intros; apply Hunit; assumption).
    intros ->. subst per. discriminate.
Qed.

(** X3: when the normalised name of some trusted artist is not empty and
    occurs in the candidate's channel-and-title text, that artist counts
    as matched and the artist score is at least 0.97 (the 0.95 floor plus
    the bonus of one match). *)
Theorem artist_score_substring_floor (spotify_artists : list string)
    (yt_artists_text yt_title a : string) :
  In a spotify_artists ->
  normalize_text a <> "" ->
  Py.contains (normalize_text a)
    (normalize_text yt_artists_text ++ " " ++ normalize_text yt_title) = true ->
  0.97 <= fst (fst (artist_score spotify_artists yt_artists_text yt_title)) /\
  (1 <= snd (fst (artist_score spotify_artists yt_artists_text yt_title)))%nat.
Proof.
  intros Ha Hne Hin. unfold artist_score. cbv zeta.
  set (blob := (normalize_text yt_artists_text ++ " " ++ normalize_text yt_title)%string)
    in *.
  set (f := fun a : string => _).
  set (per := map f spotify_artists).
  assert (Hfa : 0.95 <= snd (f a)).
  { subst f. cbn [snd]. rewrite Hin. apply String.eqb_neq in Hne. rewrite Hne.
    cbn [negb andb]. apply clamp01_floor; [discriminate | apply Q.le_max_r]. }
  assert (Hper : In (f a) per) by (subst per; apply in_map; exact Ha).
  assert (Hmatched : (1 <= length (filter (fun p => Qle_bool 0.75 (snd p)) per))%nat).
  { apply (filter_length_pos _ per (f a) Hper).
    apply Qle_bool_iff. apply Qle_trans with 0.95; [discriminate | exact Hfa]. }
  destruct (Py.sort_desc snd per) as [|[a' best] rest] eqn:E.
  - apply (Permutation_in _ (Permutation_sym (sort_desc_perm snd per))) in Hper.
    rewrite E in Hper. contradiction.
  - cbn [fst snd]. split; [|exact Hmatched].
    pose proof (sort_desc_head_greatest snd per _ _ (f a) E Hper) as Hbest.
    cbn [snd] in Hbest.
    set (matched := length (filter (fun p => Qle_bool 0.75 (snd p)) per)) in *.
    apply clamp01_floor; [discriminate|].
    destruct (2 <=? matched)%nat eqn:H2.
    + lra.
    + apply Nat.leb_gt in H2. assert (matched = 1%nat) as -> by lia.
      cbn [Nat.eqb]. lra.
Qed.

Lemma artist_score_substring_floor_witness :
  0.97 <= fst (fst (artist_score ["Dua Lipa"; "Ed Sheeran"] "Ed Sheeran"
                                 "Shape of You")).
Proof.
  apply (artist_score_substring_floor ["Dua Lipa"; "Ed Sheeran"] "Ed Sheeran"
           "Shape of You" "Ed Sheeran").
  - right. left. reflexivity.
  - vm_compute. discriminate.
  - vm_compute. reflexivity.
Defined.

(** X4: the heuristic adjustment stays between -0.22 and +0.05, and a
    candidate whose title is the trusted title is never penalised: its
    adjustment is 0, or 0.05 when the title carries a live marker. *)
Theorem heuristic_adjustment_range (spotify_title yt_title : string) :
  -0.22 <= heuristic_adjustment spotify_title yt_title <= 0.05 /\
  (heuristic_adjustment spotify_title spotify_title == 0 \/
   heuristic_adjustment spotify_title spotify_title == 0.05).
Proof.
  split.
  - unfold heuristic_adjustment. cbv zeta.
    destruct (existsb _ live_markers && existsb _ live_markers);
      destruct ((Py.contains "cover" _ || Py.contains "翻唱" _) && _);
      destruct (Py.contains "remix" _ && _);
      split; vm_compute; discriminate.
  - unfold heuristic_adjustment. cbv zeta.
    set (sp := normalize_text spotify_title).
    destruct (existsb (fun k => Py.contains k sp) live_markers);
      destruct (Py.contains "cover" sp); destruct (Py.contains "翻唱" sp);
      destruct (Py.contains "remix" sp); cbn [andb orb negb];
      ((left; vm_compute; reflexivity) || (right; vm_compute; reflexivity)).
Qed.

Lemma exp_stand_in_compat (x y : Q) : x == y -> exp_stand_in x == exp_stand_in y.
Proof.
  intros E. unfold exp_stand_in.
  assert (Eb : Qle_bool 0 x = Qle_bool 0 y).
  { destruct (Qle_bool 0 x) eqn:Hx; destruct (Qle_bool 0 y) eqn:Hy; try reflexivity.
    - apply Qle_bool_iff in Hx. apply Qle_bool_false in Hy. lra.
    - apply Qle_bool_iff in Hy. apply Qle_bool_false in Hx. lra. }
  rewrite Eb. destruct (Qle_bool 0 y); rewrite E; reflexivity.
Qed.

Lemma exp_stand_in_monotone (x y : Q) : x <= y -> exp_stand_in x <= exp_stand_in y.
Proof.
  intros H. destruct (Qle_lt_or_eq _ _ H) as [Hlt | Heq].
  - apply Qlt_le_weak, exp_stand_in_increasing, Hlt.
  - rewrite (exp_stand_in_compat _ _ Heq). apply Qle_refl.
Qed.

Lemma exp_stand_in_positive (x : Q) : 0 < exp_stand_in x.
Proof.
  unfold exp_stand_in. destruct (Qle_bool 0 x) eqn:Hx.
  - apply Qle_bool_iff in Hx. lra.
  - apply Qle_bool_false in Hx. apply Qinv_lt_0_compat. lra.
Qed.

Section RankPriorFacts.

Variable exp : Q -> Q.
Hypothesis exp_monotone : forall x y, x <= y -> exp x <= exp y.
Hypothesis exp_positive : forall x, 0 < exp x.
Hypothesis exp_zero : exp 0 == 1.

(** X5: for an exponential that is monotone, positive and 1 at 0, the rank
    prior lies in (0, 1] for every rank and strength, also for a strength
    of 0 or below; it is 1 for every rank up to 1; and a strength up to one
    millionth gives the prior of strength one millionth. *)
Theorem rank_prior_unit (rank : Z) (strength : Q) :
  0 < rank_prior exp rank strength <= 1 /\
  ((rank <= 1)%Z -> rank_prior exp rank strength == 1) /\
  (strength <= 1e-6 -> rank_prior exp rank strength = rank_prior exp rank 1e-6).
Proof.
  assert (Hd : 0 < Qmax 1e-6 strength).
  { apply Qlt_le_trans with 1e-6; [reflexivity | apply Q.le_max_l]. }
  assert (Harg : - inject_Z (Z.max 1 rank - 1) / Qmax 1e-6 strength <= 0).
  { apply Qle_shift_div_r; [exact Hd|].
    assert (0 <= inject_Z (Z.max 1 rank - 1)) by (rewrite <- (Zle_Qle 0); lia).
    lra. }
  split; [split | split].
  - apply exp_positive.
  - unfold rank_prior. cbv zeta.
    pose proof (exp_monotone _ _ Harg) as Hle. pose proof exp_zero as Ez. lra.
  - intros Hr. unfold rank_prior. cbv zeta. rewrite Z.max_l by lia.
    assert (E0 : - inject_Z (1 - 1) / Qmax 1e-6 strength == 0)
      by (change (inject_Z (1 - 1)) with 0; unfold Qdiv; ring).
    assert (Hle : - inject_Z (1 - 1) / Qmax 1e-6 strength <= 0)
      by (rewrite E0; apply Qle_refl).
    assert (Hge : 0 <= - inject_Z (1 - 1) / Qmax 1e-6 strength)
      by (rewrite E0; apply Qle_refl).
    pose proof (exp_monotone _ _ Hle) as H1. pose proof (exp_monotone _ _ Hge) as H2.
    pose proof exp_zero as Ez. lra.
  - intros Hs. unfold rank_prior. f_equal. f_equal.
    unfold Qmax, GenericMinMax.gmax.
    destruct (Qcompare 1e-6 strength) eqn:Hc; try reflexivity.
    apply Qlt_alt in Hc. exfalso. apply (Qlt_not_le _ _ Hc Hs).
Qed.

End RankPriorFacts.

Lemma rank_prior_unit_witness :
  0 < rank_prior exp_stand_in 3 6 <= 1 /\
  rank_prior exp_stand_in (-3) 6 == 1 /\
  rank_prior exp_stand_in 4 0 = rank_prior exp_stand_in 4 1e-6.
Proof.
  split; [|split].
  - apply (proj1 (rank_prior_unit exp_stand_in exp_stand_in_monotone
                    exp_stand_in_positive ltac:(reflexivity) 3 6)).
  - apply (proj1 (proj2 (rank_prior_unit exp_stand_in exp_stand_in_monotone
                           exp_stand_in_positive ltac:(reflexivity) (-3) 6))). lia.
  - apply (proj2 (proj2 (rank_prior_unit exp_stand_in exp_stand_in_monotone
                           exp_stand_in_positive ltac:(reflexivity) 4 0))). discriminate.
Defined.

(** ** Parsing of durations *)

Lemma isdigit_not_space (c : ascii) : Py.isdigit c = true -> Py.isspace c = false.
Proof.
  destruct c as [[] [] [] [] [] [] [] []]; vm_compute; intros H;
    (reflexivity || discriminate H).
Qed.

Lemma isdigit_not_colon (c : ascii) : Py.isdigit c = true -> Ascii.eqb c ":" = false.
Proof.
  destruct c as [[] [] [] [] [] [] [] []]; vm_compute; intros H;
    (reflexivity || discriminate H).
Qed.

Lemma all_digits_cons (c : ascii) (s : string) :
  all_digits (String c s) = Py.isdigit c && all_digits s.
Proof. reflexivity. Qed.

Lemma rstrip_keeps (s : string) :
  (forall c, In c (list_ascii_of_string s) -> Py.isspace c = false) ->
  Py.rstrip s = s.
Proof.
  induction s as [|c s IH]; intros H; [reflexivity|].
  cbn [Py.rstrip]. rewrite IH by (intros d Hd; apply H; right; exact Hd).
  destruct s; [|reflexivity].
  rewrite (H c) by (left; reflexivity). reflexivity.
Qed.

Lemma strip_keeps (s : string) :
  (forall c, In c (list_ascii_of_string s) -> Py.isspace c = false) ->
  Py.strip s = s.
Proof.
  intros H. unfold Py.strip.
  assert (Py.lstrip s = s) as ->.
  { destruct s as [|c s]; [reflexivity|].
    cbn [Py.lstrip]. rewrite (H c) by (left; reflexivity). reflexivity. }
  apply rstrip_keeps, H.
Qed.

Lemma all_digits_in (s : string) (c : ascii) :
  all_digits s = true -> In c (list_ascii_of_string s) -> Py.isdigit c = true.
Proof.
  unfold all_digits. rewrite forallb_forall. auto.
Qed.

Lemma split_digits (s : string) : all_digits s = true -> Py.split ":" s = [s].
Proof.
  induction s as [|c s IH]; intros H; [reflexivity|].
  rewrite all_digits_cons in H. apply andb_prop in H. destruct H as [Hc Hs].
  cbn [Py.split]. rewrite (isdigit_not_colon c Hc), (IH Hs). reflexivity.
Qed.

Lemma split_digits_colon (a rest : string) :
  all_digits a = true ->
  Py.split ":" (a ++ String ":" rest) = a :: Py.split ":" rest.
Proof.
  induction a as [|c a IH]; intros H.
  - reflexivity.
  - rewrite all_digits_cons in H. apply andb_prop in H. destruct H as [Hc Ha].
    rewrite append_cons. cbn [Py.split].
    rewrite (isdigit_not_colon c Hc), (IH Ha). reflexivity.
Qed.

Lemma int_digits_decimal (s : string) (acc : Z) (after_digit : bool) :
  all_digits s = true ->
  s <> "" \/ after_digit = true ->
  Py.int_digits s acc after_digit
  = Some (fold_left (fun a c => (a * 10 + Py.digit_value c)%Z)
                    (list_ascii_of_string s) acc).
Proof.
  revert acc after_digit. induction s as [|c s IH]; intros acc flag H Hne.
  - destruct Hne as [Hne | ->]; [contradiction | reflexivity].
  - rewrite all_digits_cons in H. apply andb_prop in H. destruct H as [Hc Hs].
    cbn [Py.int_digits list_ascii_of_string fold_left]. rewrite Hc.
    apply IH; [exact Hs | right; reflexivity].
Qed.

Lemma int_decimal (s : string) :
  all_digits s = true -> s <> "" -> Py.int s = Some (decimal s).
Proof.
  intros H Hne. unfold Py.int.
  rewrite strip_keeps
    by (intros c Hc; apply isdigit_not_space, (all_digits_in s c H Hc)).
  destruct s as [|c s]; [contradiction|].
  pose proof (int_digits_decimal (String c s) 0 false H (or_introl Hne)) as E.
  rewrite all_digits_cons in H. apply andb_prop in H. destruct H as [Hc _].
  unfold decimal. rewrite <- E. clear E.
  destruct c as [[] [] [] [] [] [] [] []]; try discriminate Hc; reflexivity.
Qed.

Lemma digits_colon_no_space (a rest : string) (c : ascii) :
  all_digits a = true ->
  (forall d, In d (list_ascii_of_string rest) -> Py.isspace d = false) ->
  In c (list_ascii_of_string (a ++ String ":" rest)) -> Py.isspace c = false.
Proof.
  induction a as [|x a IH]; intros Ha Hrest Hc.
  - destruct Hc as [<- | Hc]; [reflexivity | apply Hrest, Hc].
  - rewrite all_digits_cons in Ha. apply andb_prop in Ha. destruct Ha as [Hx Ha].
    rewrite append_cons in Hc. destruct Hc as [<- | Hc].
    + apply isdigit_not_space, Hx.
    + apply IH; assumption.
Qed.

Lemma append_not_empty (a rest : string) : (a ++ String ":" rest)%string <> "".
Proof. destruct a; discriminate. Qed.

(** X6: a candidate duration written as [m:s] or [h:m:s] with non-empty
    decimal fields parses to 60 m + s, respectively 3600 h + 60 m + s
    seconds, whatever the size of the fields (no field is required to
    stay below 60). *)
Theorem parse_duration_of_fields (h m s : string) :
  all_digits m = true -> m <> "" ->
  all_digits s = true -> s <> "" ->
  parse_duration_to_seconds (m ++ ":" ++ s) = Some (decimal m * 60 + decimal s)%Z /\
  (all_digits h = true -> h <> "" ->
   parse_duration_to_seconds (h ++ ":" ++ m ++ ":" ++ s)
   = Some (decimal h * 3600 + decimal m * 60 + decimal s)%Z).
Proof.
  intros Hm Hmne Hs Hsne.
  assert (Hs_sp : forall d, In d (list_ascii_of_string s) -> Py.isspace d = false)
    by (intros d Hd; apply isdigit_not_space, (all_digits_in s d Hs Hd)).
  assert (Hms_sp : forall d, In d (list_ascii_of_string (m ++ String ":" s)) ->
                             Py.isspace d = false)
    by (intros d; apply digits_colon_no_space; assumption).
  split.
  - unfold parse_duration_to_seconds.
    change (m ++ ":" ++ s)%string with (m ++ String ":" s)%string.
    destruct (String.eqb (m ++ String ":" s) "") eqn:E;
      [apply String.eqb_eq in E; destruct (append_not_empty _ _ E)|].
    rewrite strip_keeps by exact Hms_sp.
    rewrite split_digits_colon, split_digits by assumption.
    rewrite !int_decimal by assumption. reflexivity.
  - intros Hh Hhne. unfold parse_duration_to_seconds.
    change (h ++ ":" ++ m ++ ":" ++ s)%string
      with (h ++ String ":" (m ++ String ":" s))%string.
    destruct (String.eqb (h ++ String ":" (m ++ String ":" s)) "") eqn:E;
      [apply String.eqb_eq in E; destruct (append_not_empty _ _ E)|].
    rewrite strip_keeps by (intros d; apply digits_colon_no_space; assumption).
    rewrite !split_digits_colon, split_digits by assumption.
    rewrite !int_decimal by assumption. reflexivity.
Qed.

Lemma parse_duration_of_fields_witness :
  parse_duration_to_seconds "3:54" = Some 234%Z /\
  parse_duration_to_seconds "1:02:03" = Some 3723%Z /\
  parse_duration_to_seconds "2:75" = Some 195%Z.
Proof.
  destruct (parse_duration_of_fields "1" "02" "03" eq_refl ltac:(discriminate)
              eq_refl ltac:(discriminate)) as [_ Hhms].
  split; [|split].
  - apply (proj1 (parse_duration_of_fields "" "3" "54" eq_refl ltac:(discriminate)
                    eq_refl ltac:(discriminate))).
  - apply Hhms; [reflexivity | discriminate].
  - apply (proj1 (parse_duration_of_fields "" "2" "75" eq_refl ltac:(discriminate)
                    eq_refl ltac:(discriminate))).
Defined.

Lemma count_colons_lstrip (s : string) : count_colons (Py.lstrip s) = count_colons s.
Proof.
  induction s as [|c s IH]; [reflexivity|].
  cbn [Py.lstrip]. destruct (Py.isspace c) eqn:Hc; [|reflexivity].
  rewrite IH. cbn [count_colons].
  destruct c as [[] [] [] [] [] [] [] []]; try discriminate Hc; reflexivity.
Qed.

Lemma count_colons_rstrip (s : string) : count_colons (Py.rstrip s) = count_colons s.
Proof.
  induction s as [|c s IH]; [reflexivity|].
  cbn [Py.rstrip count_colons]. rewrite <- IH.
  destruct (Py.rstrip s) as [|d r]; [|reflexivity].
  destruct (Py.isspace c) eqn:Hc; [|cbn [count_colons]; lia].
  destruct c as [[] [] [] [] [] [] [] []]; try discriminate Hc; reflexivity.
Qed.

Lemma split_length (s : string) : length (Py.split ":" s) = S (count_colons s).
Proof.
  induction s as [|c s IH]; [reflexivity|].
  cbn [Py.split count_colons].
  destruct (Ascii.eqb c ":"); cbn [length Nat.add].
  - rewrite IH. reflexivity.
  - destruct (Py.split ":" s) as [|p ps]; [discriminate IH|].
    cbn [length] in *. exact IH.
Qed.

(** X7: a duration string parses only if it holds one or two colons: an
    empty string, bare seconds and four or more fields all give [None]. *)
Theorem parse_duration_needs_colons (duration_str : string) (seconds : Z) :
  parse_duration_to_seconds duration_str = Some seconds ->
  (1 <= count_colons duration_str <= 2)%nat.
Proof.
  unfold parse_duration_to_seconds.
  destruct (String.eqb duration_str ""); [discriminate|].
  pose proof (split_length (Py.strip duration_str)) as Hlen.
  unfold Py.strip in Hlen at 2.
  rewrite count_colons_rstrip, count_colons_lstrip in Hlen.
  destruct (Py.split ":" (Py.strip duration_str)) as [|a [|b [|c [|d rest]]]];
    cbn [length] in Hlen; try discriminate; intros _; lia.
Qed.

Lemma parse_duration_needs_colons_witness :
  (1 <= count_colons "3:54" <= 2)%nat /\
  parse_duration_to_seconds "234" = None /\
  parse_duration_to_seconds "1:2:3:4" = None.
Proof.
  split; [|split; reflexivity].
  apply (parse_duration_needs_colons "3:54" 234). reflexivity.
Defined.

(** ** Tokens and the normalised text *)

Lemma no_space_cons (c : ascii) (s : string) :
  no_space (String c s) = negb (Py.isspace c) && no_space s.
Proof. reflexivity. Qed.

Lemma no_space_app (a b : string) :
  no_space (a ++ b) = no_space a && no_space b.
Proof.
  induction a as [|c a IH]; [reflexivity|].
  rewrite append_cons, !no_space_cons, IH. apply andb_assoc.
Qed.

Lemma no_space_in (s : string) :
  no_space s = true ->
  forall c, In c (list_ascii_of_string s) -> Py.isspace c = false.
Proof.
  unfold no_space. rewrite forallb_forall. intros H c Hc.
  apply negb_true_iff, H, Hc.
Qed.

(** [rstrip] of a concatenation: the blank tail is dropped with what
    stands in front of it, a tail with a visible character keeps it. *)
Lemma rstrip_app (p q : string) :
  Py.rstrip (p ++ q) =
  match Py.rstrip q with
  | EmptyString => Py.rstrip p
  | r => (p ++ r)%string
  end.
Proof.
  induction p as [|c p IH].
  - change ("" ++ q)%string with q. destruct (Py.rstrip q); reflexivity.
  - rewrite append_cons. cbn [Py.rstrip]. rewrite IH.
    destruct (Py.rstrip q) as [|d r]; [reflexivity|].
    destruct p; reflexivity.
Qed.

Lemma whitespace_runs_not_nil (s cur : string) :
  cur <> "" -> whitespace_runs s cur <> [].
Proof.
  revert cur. induction s as [|c s IH]; intros cur Hne; cbn [whitespace_runs].
  - destruct cur; [contradiction | discriminate].
  - destruct (Py.isspace c).
    + destruct cur; [contradiction | discriminate].
    + apply IH. destruct cur; discriminate.
Qed.

Lemma join_space_cons (p : string) (l : list string) :
  l <> [] -> join_space (p :: l) = (p ++ " " ++ join_space l)%string.
Proof. destruct l; [contradiction | reflexivity]. Qed.

Lemma join_space_head_not_empty (p : string) (l : list string) :
  p <> "" -> join_space (p :: l) <> "".
Proof.
  intros Hp. destruct l; cbn [join_space]; [exact Hp|].
  destruct p; [contradiction | discriminate].
Qed.

(** The runs of a text, every run non-empty and free of whitespace. *)
Lemma whitespace_runs_clean (s cur : string) :
  no_space cur = true ->
  Forall (fun t => t <> "" /\ no_space t = true) (whitespace_runs s cur).
Proof.
  revert cur. induction s as [|c s IH]; intros cur Hcur; cbn [whitespace_runs].
  - destruct cur; [constructor|]. constructor; [split; [discriminate | exact Hcur] | constructor].
  - destruct (Py.isspace c) eqn:Hc.
    + destruct cur as [|d cur']; [apply IH; reflexivity|].
      constructor; [split; [discriminate | exact Hcur] | apply IH; reflexivity].
    + apply IH. rewrite no_space_app, Hcur, no_space_cons, Hc. reflexivity.
Qed.

(** Collapsing and trimming a text leaves its runs, one space apart. *)
Lemma rstrip_collapse_runs (s : string) :
  forall cur, cur <> "" -> no_space cur = true ->
    Py.rstrip (cur ++ collapse_ws s false) = join_space (whitespace_runs s cur) /\
    Py.rstrip (cur ++ " " ++ collapse_ws s true)
    = join_space (cur :: whitespace_runs s "").
Proof.
  induction s as [|c s IH]; intros cur Hne Hcur.
  - cbn [collapse_ws whitespace_runs]. split.
    + rewrite append_empty_r. destruct cur; [contradiction|].
      apply rstrip_keeps, no_space_in, Hcur.
    + rewrite rstrip_app. cbn. apply rstrip_keeps, no_space_in, Hcur.
  - cbn [collapse_ws whitespace_runs]. destruct (Py.isspace c) eqn:Hc.
    + destruct (IH cur Hne Hcur) as [_ IH2]. split; [|exact IH2].
      destruct cur; [contradiction | exact IH2].
    + assert (Hc1 : no_space (String c "") = true)
        by (rewrite no_space_cons, Hc; reflexivity).
      split.
      * destruct (IH (cur ++ String c "")%string) as [IH1 _].
        -- destruct cur; discriminate.
        -- rewrite no_space_app, Hcur, Hc1. reflexivity.
        -- rewrite <- IH1, append_assoc. reflexivity.
      * destruct (IH (String c "") ltac:(discriminate) Hc1) as [IH1 _].
        change ("" ++ String c "")%string with (String c "").
        rewrite join_space_cons
          by (apply whitespace_runs_not_nil; discriminate).
        rewrite <- IH1.
        change (cur ++ " " ++ String c (collapse_ws s false))%string
          with (cur ++ (" " ++ (String c "" ++ collapse_ws s false)))%string.
        rewrite <- !append_assoc.
        rewrite (rstrip_app ((cur ++ " ") ++ String c "")).
        rewrite (rstrip_app (String c "")) in IH1 |- *.
        destruct (Py.rstrip (collapse_ws s false)) as [|d r].
        -- cbn [Py.rstrip]. rewrite Hc.
           rewrite rstrip_app. cbn [Py.rstrip]. rewrite Hc.
           rewrite !append_assoc. reflexivity.
        -- rewrite !append_assoc. reflexivity.
Qed.

Lemma strip_collapse_runs (s : string) (in_ws : bool) :
  Py.strip (collapse_ws s in_ws) = join_space (whitespace_runs s "").
Proof.
  revert in_ws. induction s as [|c s IH]; intros in_ws; [reflexivity|].
  cbn [collapse_ws whitespace_runs]. destruct (Py.isspace c) eqn:Hc.
  - destruct in_ws; [apply IH|].
    unfold Py.strip. cbn [Py.lstrip]. change (Py.isspace " ") with true. cbn iota.
    apply (IH true).
  - unfold Py.strip. cbn [Py.lstrip]. rewrite Hc.
    change ("" ++ String c "")%string with (String c "").
    destruct (rstrip_collapse_runs s (String c "") ltac:(discriminate)) as [H1 _].
    + rewrite no_space_cons, Hc. reflexivity.
    + exact H1.
Qed.

(** Reading the runs back from their joined form. *)
Lemma whitespace_runs_app (p rest cur : string) :
  no_space p = true ->
  whitespace_runs (p ++ rest) cur = whitespace_runs rest (cur ++ p).
Proof.
  revert cur. induction p as [|c p IH]; intros cur Hp.
  - rewrite append_empty_r. reflexivity.
  - rewrite no_space_cons in Hp. apply andb_prop in Hp. destruct Hp as [Hc Hp].
    apply negb_true_iff in Hc.
    rewrite append_cons. cbn [whitespace_runs]. rewrite Hc, IH by exact Hp.
    rewrite append_assoc. reflexivity.
Qed.

Lemma whitespace_runs_join (l : list string) :
  Forall (fun t => t <> "" /\ no_space t = true) l ->
  whitespace_runs (join_space l) "" = l.
Proof.
  induction 1 as [|p l [Hne Hsp] Hl IH]; [reflexivity|].
  destruct l as [|q l'].
  - cbn [join_space]. rewrite <- (append_empty_r p) at 1.
    rewrite whitespace_runs_app by exact Hsp.
    cbn [whitespace_runs]. change ("" ++ p)%string with p.
    destruct p; [contradiction | reflexivity].
  - rewrite join_space_cons by discriminate.
    rewrite whitespace_runs_app by exact Hsp.
    change ("" ++ p)%string with p.
    change (" " ++ join_space (q :: l'))%string with (String " " (join_space (q :: l'))).
    cbn [whitespace_runs]. change (Py.isspace " ") with true. cbn iota.
    rewrite IH. destruct p; [contradiction | reflexivity].
Qed.

(** X8: the tokens of a text are non-empty and free of whitespace, and
    joined by single spaces they give back the normalised text: nothing of
    it is lost between [normalize_text] and [tokens]. *)
Theorem tokens_rebuild_normalized_text (text : string) :
  Forall (fun t => t <> "" /\ no_space t = true) (tokens text) /\
  join_space (tokens text) = normalize_text text.
Proof.
  split.
  - rewrite tokens_are_runs. apply whitespace_runs_clean. reflexivity.
  - rewrite tokens_are_runs. unfold normalize_text. cbv zeta.
    set (s := sub_feat _ false 0).
    rewrite strip_collapse_runs.
    rewrite whitespace_runs_join by (apply whitespace_runs_clean; reflexivity).
    reflexivity.
Qed.

(** ** The ranked list *)

Section RankedListFacts.

Variable exp : Q -> Q.
Variables (name : string) (artists : list string) (ms : option Z) (strength : Q).

Lemma score_loop_length (i : Z) (results : list RawResult) :
  length (score_loop exp name artists ms strength i results)
  = length (filter has_video_id results).
Proof.
  revert i. induction results as [|res rest IH]; intros i; [reflexivity|].
  cbn [score_loop filter]. unfold has_video_id at 1.
  destruct (score_one exp name artists ms strength i res) as [c|] eqn:E.
  - destruct (String.eqb (or_empty (res_videoId res)) "") eqn:Hv.
    + apply String.eqb_eq in Hv.
      apply (score_one_skips exp name artists ms strength i) in Hv. congruence.
    + cbn [negb length]. rewrite IH. reflexivity.
  - apply score_one_skips in E. apply String.eqb_eq in E. rewrite E.
    cbn [negb]. apply IH.
Qed.

(** X9: the ranked list holds one candidate per raw entry with a
    [videoId] (so it is empty exactly when no entry has one); its first
    candidate has the greatest final score, and when that one is below
    the confidence threshold every candidate is. *)
Theorem score_results_best_first (results : list RawResult) :
  let ranked := score_results exp results name artists ms strength in
  length ranked = length (filter has_video_id results) /\
  (ranked = [] <-> forall res, In res results -> or_empty (res_videoId res) = "") /\
  (forall best rest, ranked = best :: rest ->
     forall c, In c ranked ->
       final c <= final best /\
       (final best < CONFIDENCE_THRESHOLD -> final c < CONFIDENCE_THRESHOLD)).
Proof.
  cbv zeta.
  assert (Hlen : length (score_results exp results name artists ms strength)
                 = length (filter has_video_id results)).
  { unfold score_results. rewrite (Permutation_length (sort_desc_perm final _)).
    apply score_loop_length. }
  split; [exact Hlen | split].
  - split.
    + intros E res Hres. rewrite E in Hlen. cbn [length] in Hlen.
      destruct (String.eqb (or_empty (res_videoId res)) "") eqn:Hv;
        [apply String.eqb_eq, Hv|].
      assert (In res (filter has_video_id results)) as Hin
        by (apply filter_In; split; [exact Hres | unfold has_video_id; rewrite Hv; reflexivity]).
      destruct (filter has_video_id results); [contradiction | discriminate].
    + intros Hall.
      assert (filter has_video_id results = []) as Hnil.
      { clear Hlen. induction results as [|r rs IHr]; [reflexivity|].
        cbn [filter]. unfold has_video_id at 1.
        rewrite (Hall r (or_introl eq_refl)). cbn.
        apply IHr. intros res Hres. apply Hall. right. exact Hres. }
      rewrite Hnil in Hlen. cbn [length] in Hlen.
      destruct (score_results exp results name artists ms strength);
        [reflexivity | discriminate].
  - intros best rest E c Hc.
    assert (final c <= final best) as Hle.
    { unfold score_results in E, Hc.
      apply (sort_desc_head_greatest final _ best rest c E).
      apply (Permutation_in _ (sort_desc_perm final _)), Hc. }
    split; [exact Hle|]. intros Hlow. apply Qle_lt_trans with (final best); assumption.
Qed.

End RankedListFacts.

Lemma score_results_best_first_witness :
  exists best rest,
    score_results exp_stand_in payload_with_gap "abc" [] None 6 = best :: rest /\
    forall c, In c (score_results exp_stand_in payload_with_gap "abc" [] None 6) ->
              final c <= final best.
Proof.
  assert (E : exists best rest,
             score_results exp_stand_in payload_with_gap "abc" [] None 6 = best :: rest).
  { eexists. eexists. vm_compute. reflexivity. }
  destruct E as (best & rest & E).
  exists best, rest. split; [exact E|].
  intros c Hc.
  apply (proj2 (proj2 (score_results_best_first exp_stand_in "abc" [] None 6
                         payload_with_gap)) best rest E c Hc).
Defined.

(** * Further properties of the job bookkeeping *)

Local Open Scope Z_scope.

(** ** Percent-encoding of file names *)

Lemma always_safe_not_percent (c : ascii) : Lib.always_safe c = true -> c <> "%"%char.
Proof. intros H ->. discriminate H. Qed.

Lemma unquote_step_safe (c : ascii) (s : string) :
  Lib.always_safe c = true ->
  Lib.unquote_skip (String c s) 0 = String c (Lib.unquote_skip s 0).
Proof.
  intros H. cbn [Lib.unquote_skip].
  assert (Lib.escape_at (String c s) = None) as ->; [|reflexivity].
  destruct c as [[] [] [] [] [] [] [] []]; try discriminate H; reflexivity.
Qed.

Lemma unquote_step_escaped (c : ascii) (s : string) :
  Lib.always_safe c = false ->
  Lib.unquote_skip
    (String "%" (String (Lib.hex_digit (N_of_ascii c / 16))
                        (String (Lib.hex_digit (N_of_ascii c mod 16)) s))) 0
  = String c (Lib.unquote_skip s 0).
Proof.
  intros _. destruct c as [[] [] [] [] [] [] [] []]; reflexivity.
Qed.

Lemma quote_round_trip (s : string) : Lib.unquote (Lib.quote s) = s.
Proof.
  unfold Lib.unquote. induction s as [|c s IH]; [reflexivity|].
  cbn [Lib.quote]. destruct (Lib.always_safe c) eqn:Hc.
  - rewrite unquote_step_safe by exact Hc. rewrite IH. reflexivity.
  - rewrite unquote_step_escaped by exact Hc. rewrite IH. reflexivity.
Qed.

Lemma hex_digits_safe (c : ascii) :
  Lib.always_safe (Lib.hex_digit (N_of_ascii c / 16)) = true /\
  Lib.always_safe (Lib.hex_digit (N_of_ascii c mod 16)) = true.
Proof. destruct c as [[] [] [] [] [] [] [] []]; split; reflexivity. Qed.

(** X10: percent-decoding undoes the encoding the orchestrator applies to
    the file name of a download URL, so that two names with the same
    encoding are the same name; the encoding holds only letters, digits,
    [_.-~] and percent signs, and leaves a name made of letters, digits
    and [_.-~] as it is. *)
Theorem unquote_quote (s : string) :
  Lib.unquote (Lib.quote s) = s /\
  (forall t, Lib.quote s = Lib.quote t -> s = t) /\
  Forall (fun c => Lib.always_safe c = true \/ c = "%"%char)
         (list_ascii_of_string (Lib.quote s)) /\
  ((forall c, In c (list_ascii_of_string s) -> Lib.always_safe c = true) ->
   Lib.quote s = s).
Proof.
  split; [apply quote_round_trip | split; [|split]].
  - intros t E. rewrite <- (quote_round_trip s), <- (quote_round_trip t), E.
    reflexivity.
  - induction s as [|c s IH]; [constructor|].
    cbn [Lib.quote]. destruct (Lib.always_safe c) eqn:Hc.
    + cbn [list_ascii_of_string]. constructor; [left; exact Hc | exact IH].
    + destruct (hex_digits_safe c) as [Hhi Hlo].
      cbn [list_ascii_of_string].
      constructor; [right; reflexivity|].
      constructor; [left; exact Hhi|].
      constructor; [left; exact Hlo | exact IH].
  - induction s as [|c s IH]; intros Hsafe; [reflexivity|].
    cbn [Lib.quote]. rewrite (Hsafe c (or_introl eq_refl)).
    rewrite IH; [reflexivity|].
    intros d Hd. apply Hsafe. right. exact Hd.
Qed.

(** ** One run of the track orchestration *)

Section TrackRunFacts.

Variables (temp_dir OUTPUT_FORMAT : string) (w : Collaborators).
Variables (track_id location : string) (video_id : option string).

(** X11: a run of the background task raises nothing; it first reports
    the [fetching] stage at progress 10, reports [processing] in every
    write but the last, and ends either [completed] (progress 100, stage
    [completed], result file set) or [error] (progress 0, no file, no
    URL): it never leaves the job [queued] or [processing]. *)
Theorem download_and_process_ends_terminal :
  let run := download_and_process temp_dir OUTPUT_FORMAT w track_id location video_id in
  let final := last (fst run) (processing "" "" 0) in
  snd run = Returns tt /\
  hd_error (fst run) = Some (processing "Fetching track info..." "fetching" 10) /\
  (2 <= length (fst run) <= 6)%nat /\
  Forall (fun r => status r = "processing") (removelast (fst run)) /\
  ((status final = "completed" /\ progress final = 100 /\
    stage final = Some "completed" /\ file_path final <> None) \/
   (status final = "error" /\ progress final = 0 /\
    file_path final = None /\ download_url final = None)).
Proof.
  cbv zeta. orchestrate;
    repeat match goal with u : unit |- _ => destruct u end;
    (split; [reflexivity|]); (split; [reflexivity|]);
    (split; [cbn [length]; lia|]);
    (split; [cbn [removelast]; repeat constructor|]);
    cbn [last];
    ((left; repeat split; discriminate) || (right; repeat split)).
Qed.

(** The last write of a run, whatever the collaborators do, is terminal. *)
Lemma run_log_ends :
  exists final earlier,
    rev (fst (download_and_process temp_dir OUTPUT_FORMAT w track_id location video_id))
    = final :: earlier /\
    (status final = "completed" \/ status final = "error").
Proof.
  orchestrate; cbn [rev app]; eexists; eexists; (split; [reflexivity|]);
    ((left; reflexivity) || (right; reflexivity)).
Qed.

End TrackRunFacts.

(** Writing a log into the store leaves its last record under the track
    id and touches no other id. *)
Lemma apply_writes_last (track_id : string) (log : list JobRecord)
    (store : gmap string JobRecord) (final : JobRecord) (earlier : list JobRecord) :
  rev log = final :: earlier ->
  apply_writes track_id log store !! track_id = Some final.
Proof.
  intros E. apply (f_equal (@rev JobRecord)) in E.
  rewrite rev_involutive in E. cbn [rev] in E. subst log.
  unfold apply_writes. rewrite fold_left_app. cbn [fold_left].
  apply lookup_insert_eq.
Qed.

Lemma apply_writes_other (track_id other : string) (log : list JobRecord)
    (store : gmap string JobRecord) :
  other <> track_id ->
  apply_writes track_id log store !! other = store !! other.
Proof.
  intros Hne. revert store. unfold apply_writes.
  induction log as [|r log IH]; intros store; [reflexivity|].
  cbn [fold_left]. rewrite IH. apply lookup_insert_ne. congruence.
Qed.

(** ** Submission of a track *)

Section SubmissionFacts.

Variables (temp_dir OUTPUT_FORMAT : string).

(** X12: without a catalogue service the submission is refused with 500
    and changes nothing.  Otherwise it overwrites the record of the track
    with a fresh [queued] one at progress 0 and schedules one run, whose
    location is [local] unless [navidrome] was asked for; once the run is
    over the status endpoint shows a [completed] or [error] record for
    the track, and what it shows for any other track is unchanged. *)
Theorem track_job_lifecycle (w : Collaborators) (ws : nat -> Collaborators)
    (track_id : string) (location video_id : option string) (st : State) :
  let submitted := download_track w track_id location video_id st in
  let finished :=
    run_tasks temp_dir OUTPUT_FORMAT ws 0 (snd submitted) (snd (fst submitted)) in
  (spotify_service w = None ->
   submitted = (HTTPException 500 "Spotify service not configured", st, [])) /\
  (spotify_service w <> None ->
   snd submitted = [TaskDownloadAndProcess track_id (valid_location location) video_id] /\
   (valid_location location = "navidrome" \/ valid_location location = "local") /\
   (location <> Some "navidrome" -> valid_location location = "local") /\
   (exists r, Status.get_download_status (snd (fst submitted)) track_id = inr r /\
              status r = "queued" /\ progress r = 0 /\ file_path r = None) /\
   (exists r, Status.get_download_status finished track_id = inr r /\
              (status r = "completed" \/ status r = "error")) /\
   (forall other, other <> track_id ->
      Status.get_download_status finished other = Status.get_download_status st other) /\
   album_download_status finished = album_download_status st).
Proof.
  cbv zeta. unfold download_track.
  destruct (spotify_service w) as [sp|]; (split; [intros H|intros H]);
    try reflexivity; try discriminate; try contradiction.
  cbn [fst snd run_tasks album_download_status download_status].
  split; [reflexivity|]. split; [|split].
  - unfold valid_location. destruct location as [l|]; [|right; reflexivity].
    destruct (String.eqb l "local") eqn:El; [right; apply String.eqb_eq, El|].
    destruct (String.eqb l "navidrome") eqn:En; [left; apply String.eqb_eq, En|].
    right. reflexivity.
  - intros Hn. unfold valid_location. destruct location as [l|]; [|reflexivity].
    destruct (String.eqb l "local") eqn:El; [apply String.eqb_eq, El|].
    destruct (String.eqb l "navidrome") eqn:En; [|reflexivity].
    apply String.eqb_eq in En. congruence.
  - split; [|split; [|split]].
    + eexists. unfold Status.get_download_status. cbn [download_status].
      rewrite lookup_insert_eq. repeat split; reflexivity.
    + destruct (run_log_ends temp_dir OUTPUT_FORMAT (ws 0%nat) track_id
                  (valid_location location) video_id)
        as (final & earlier & Hrev & Hterminal).
      exists final. unfold Status.get_download_status. cbn [download_status].
      rewrite (apply_writes_last _ _ _ final earlier Hrev). split; [reflexivity | exact Hterminal].
    + intros other Hne. unfold Status.get_download_status. cbn [download_status].
      rewrite apply_writes_other by exact Hne.
      rewrite lookup_insert_ne by congruence. reflexivity.
    + reflexivity.
Qed.

End SubmissionFacts.

Lemma track_job_lifecycle_witness :
  exists r,
    Status.get_download_status
      (run_tasks "downloads/temp" "mp3" (fun _ => sample_world) 0
         (snd (download_track sample_world "t1" (Some "cloud") None empty_state))
         (snd (fst (download_track sample_world "t1" (Some "cloud") None empty_state))))
      "t1" = inr r /\
    (status r = "completed" \/ status r = "error").
Proof.
  apply (track_job_lifecycle "downloads/temp" "mp3" sample_world (fun _ => sample_world)
           "t1" (Some "cloud") None empty_state).
  discriminate.
Defined.

(** ** Submission and completion of an album *)

Lemma queue_jobs_member (job : JobRecord) (ids : list string) (t : string) :
  forall store : gmap string JobRecord,
    (In t ids -> fold_left (fun m x => <[x := job]> m) ids store !! t = Some job) /\
    (~ In t ids -> fold_left (fun m x => <[x := job]> m) ids store !! t = store !! t).
Proof.
  induction ids as [|x ids IH]; intros store.
  - split; [contradiction | reflexivity].
  - cbn [fold_left]. destruct (IH (<[x := job]> store)) as [IHin IHout]. split.
    + intros [-> | Hin].
      * destruct (in_dec string_dec t ids) as [Hin | Hout]; [apply IHin, Hin|].
        rewrite (IHout Hout). apply lookup_insert_eq.
      * apply IHin, Hin.
    + intros Hout. rewrite IHout by (intros H; apply Hout; right; exact H).
      apply lookup_insert_ne. intros ->. apply Hout. left. reflexivity.
Qed.

(** X13: an album submission is refused with 500 without a catalogue
    service and with 404 for an unknown album, and then changes nothing
    and schedules nothing.  Otherwise it stores a [downloading] album
    record whose total is the number of member tracks and whose counters
    are 0, gives every member track a [queued] record at progress 0 tagged
    with the album id, leaves every other record alone, and schedules one
    run per member track, in album order. *)
Theorem download_album_queues_members (w : Collaborators) (aid : string)
    (location : option string) (st : State) :
  let submitted := download_album w aid location st in
  let queued_state := snd (fst submitted) in
  (spotify_service w = None ->
   submitted = (HTTPException 500 "Spotify service not configured", st, [])) /\
  (forall sp, spotify_service w = Some sp -> get_album_details sp aid = None ->
   submitted = (HTTPException 404 "Album not found", st, [])) /\
  (forall sp album, spotify_service w = Some sp ->
     get_album_details sp aid = Some album ->
     let ids := map track_id_of (album_tracks album) in
     snd submitted = map (fun t => TaskDownloadAlbumTrack t (valid_location location) aid) ids /\
     (exists a, album_download_status queued_state !! aid = Some a /\
                album_status a = "downloading" /\
                total_tracks a = Z.of_nat (length ids) /\
                completed_tracks a = 0 /\ failed_tracks a = 0 /\
                current_track a = None /\ track_ids a = ids) /\
     (forall t, In t ids ->
        exists j, download_status queued_state !! t = Some j /\
                  status j = "queued" /\ progress j = 0 /\ album_id j = Some aid) /\
     (forall t, ~ In t ids ->
        download_status queued_state !! t = download_status st !! t) /\
     (forall other, other <> aid ->
        album_download_status queued_state !! other = album_download_status st !! other)).
Proof.
  cbv zeta. unfold download_album. repeat apply conj.
  - intros ->. reflexivity.
  - intros sp -> ->. reflexivity.
  - intros sp album -> ->. cbn [fst snd download_status album_download_status].
    repeat apply conj.
    + reflexivity.
    + eexists. rewrite lookup_insert_eq. split; [reflexivity|].
      cbn. rewrite length_map. repeat split; reflexivity.
    + intros t Ht. eexists. split.
      * apply (proj1 (queue_jobs_member _ _ t _) Ht).
      * repeat split; reflexivity.
    + intros t Ht. apply (proj2 (queue_jobs_member _ _ t _) Ht).
    + intros other Hne. apply lookup_insert_ne. congruence.
Qed.

Lemma download_album_queues_members_witness :
  snd (download_album sample_world "album1" (Some "local") empty_state)
  = [TaskDownloadAlbumTrack "t1" "local" "album1";
     TaskDownloadAlbumTrack "missing" "local" "album1"] /\
  download_album sample_world "nothing" (Some "local") empty_state
  = (HTTPException 404 "Album not found", empty_state, []).
Proof.
  destruct (download_album_queues_members sample_world "album1" (Some "local") empty_state)
    as (_ & _ & Hfound).
  destruct (download_album_queues_members sample_world "nothing" (Some "local") empty_state)
    as (_ & Hmissing & _).
  split.
  - apply (Hfound sample_spotify _ eq_refl eq_refl).
  - apply (Hmissing sample_spotify eq_refl eq_refl).
Defined.

Lemma count_track_counts (j : JobRecord) (a : AlbumRecord) :
  let a' := count_track (Some j) a in
  completed_tracks a'
  = completed_tracks a + (if String.eqb (status j) "completed" then 1 else 0) /\
  failed_tracks a'
  = failed_tracks a + (if String.eqb (status j) "completed" then 0 else 1) /\
  total_tracks a' = total_tracks a /\ track_ids a' = track_ids a.
Proof.
  cbv zeta. unfold count_track.
  destruct (String.eqb (status j) "completed");
    match goal with |- context [if ?b then _ else _] => destruct b end;
    cbn; repeat split; lia.
Qed.

Section AlbumTotals.

Variables (temp_dir OUTPUT_FORMAT : string).

Lemma download_album_track_exact (w : Collaborators)
    (track_id location aid : string) (st : State) (a : AlbumRecord) :
  album_download_status st !! aid = Some a ->
  exists final,
    App.status final = run_status temp_dir OUTPUT_FORMAT w track_id location /\
    album_download_status
      (download_album_track temp_dir OUTPUT_FORMAT w track_id location aid st) !! aid
    = Some (count_track (Some final) (set_current_track a (Some track_id))).
Proof.
  intros Ha. unfold download_album_track, run_status. rewrite Ha.
  pose proof (download_and_process_returns temp_dir OUTPUT_FORMAT w
                track_id location None) as Hret.
  destruct (run_log_ends temp_dir OUTPUT_FORMAT w track_id location None)
    as (final & earlier & Hrev & _).
  destruct (download_and_process temp_dir OUTPUT_FORMAT w track_id location None)
    as [log result].
  cbn [fst snd] in *. subst result. rewrite Hrev.
  exists final. split; [reflexivity|].
  cbn [album_download_status download_status].
  rewrite lookup_insert_eq, (apply_writes_last _ _ _ final earlier Hrev).
  apply lookup_insert_eq.
Qed.

Lemma run_album_tasks_counts (ws : nat -> Collaborators) (location aid : string)
    (ids : list string) :
  forall (i : nat) (st : State) (a : AlbumRecord),
    album_download_status st !! aid = Some a ->
    exists a',
      album_download_status
        (run_tasks temp_dir OUTPUT_FORMAT ws i (map (album_task location aid) ids) st)
        !! aid = Some a' /\
      completed_tracks a'
      = completed_tracks a + completed_runs temp_dir OUTPUT_FORMAT ws location i ids /\
      failed_tracks a'
      = failed_tracks a + (Z.of_nat (length ids)
                           - completed_runs temp_dir OUTPUT_FORMAT ws location i ids) /\
      total_tracks a' = total_tracks a /\ track_ids a' = track_ids a.
Proof.
  induction ids as [|t ids IH]; intros i st a Ha.
  - exists a. cbn [map run_tasks completed_runs length]. repeat split; auto; lia.
  - cbn [map run_tasks album_task completed_runs].
    destruct (download_album_track_exact (ws i) t location aid st a Ha)
      as (final & Hstatus & Hstep).
    destruct (IH (S i) _ _ Hstep) as (a' & Ha' & Hc & Hf & Ht & Hids).
    destruct (count_track_counts final (set_current_track a (Some t)))
      as (Hc1 & Hf1 & Ht1 & Hids1).
    exists a'. split; [exact Ha'|].
    rewrite Hc, Hf, Ht, Hids, Hc1, Hf1, Ht1, Hids1, Hstatus. cbn [length].
    destruct (String.eqb (run_status temp_dir OUTPUT_FORMAT (ws i) t location) "completed");
      cbn [completed_tracks failed_tracks total_tracks track_ids set_current_track];
      repeat split; lia.
Qed.

(** X14: when all the member runs of a queued album are over, the album
    is [completed] with no current track, its completed count is the
    number of member runs that ended [completed] and its failed count is
    the number of the others: a failed track is counted, never fatal. *)
Theorem album_run_totals (w : Collaborators) (ws : nat -> Collaborators)
    (aid : string) (location : option string) (st : State) :
  let submitted := download_album w aid location st in
  snd submitted <> [] ->
  exists a,
    album_download_status
      (run_tasks temp_dir OUTPUT_FORMAT ws 0 (snd submitted) (snd (fst submitted)))
      !! aid = Some a /\
    album_status a = "completed" /\ current_track a = None /\
    total_tracks a = Z.of_nat (length (snd submitted)) /\
    completed_tracks a
    = completed_runs temp_dir OUTPUT_FORMAT ws (valid_location location) 0 (track_ids a) /\
    failed_tracks a = total_tracks a - completed_tracks a.
Proof.
  cbv zeta. unfold download_album.
  destruct (spotify_service w) as [sp|]; [|cbn; contradiction].
  destruct (get_album_details sp aid) as [album|]; [|cbn; contradiction].
  cbn [fst snd]. set (ids := map track_id_of (album_tracks album)).
  intros Hne. rewrite length_map.
  change (fun t => TaskDownloadAlbumTrack t (valid_location location) aid)
    with (album_task (valid_location location) aid) in *.
  match goal with
  | |- context [run_tasks _ _ _ _ _ ?s] => set (st0 := s)
  end.
  set (a0 := {| album_status := "downloading";
                album_name := album_name_of album;
                album_artist := album_artist_of album;
                total_tracks := Z.of_nat (length (album_tracks album));
                completed_tracks := 0; failed_tracks := 0;
                current_track := None; track_ids := ids |}).
  assert (H0 : album_download_status st0 !! aid = Some a0)
    by (subst st0; cbn [album_download_status]; apply lookup_insert_eq).
  assert (Hids : ids <> []) by (intros E; apply Hne; rewrite E; reflexivity).
  assert (Hlen : length ids = length (album_tracks album)) by apply length_map.
  destruct (run_album_tasks temp_dir OUTPUT_FORMAT ws (valid_location location) aid
              (Z.of_nat (length (album_tracks album))) ids 0%nat 0 st0 a0 Hids H0)
    as (a & Ha & Ht & Hsum & Hiff & Hcur).
  { repeat split; cbn; try lia. discriminate. }
  destruct (run_album_tasks_counts ws (valid_location location) aid ids 0%nat st0 a0 H0)
    as (a' & Ha' & Hc & Hf & Ht' & Hids').
  rewrite Ha in Ha'. injection Ha' as <-.
  exists a. cbn [completed_tracks failed_tracks total_tracks track_ids a0] in *.
  assert (Hdone : album_status a = "completed") by (apply Hiff; lia).
  rewrite Hids'. repeat split; auto; lia.
Qed.

End AlbumTotals.

Lemma album_run_totals_witness :
  exists a,
    album_download_status
      (run_tasks "downloads/temp" "mp3" (fun _ => sample_world) 0
         (snd (download_album sample_world "album1" (Some "local") empty_state))
         (snd (fst (download_album sample_world "album1" (Some "local") empty_state))))
      !! "album1" = Some a /\
    album_status a = "completed" /\ current_track a = None /\
    total_tracks a = 2 /\ completed_tracks a = 1 /\ failed_tracks a = 1.
Proof.
  destruct (album_run_totals "downloads/temp" "mp3" sample_world (fun _ => sample_world)
              "album1" (Some "local") empty_state)
    as (a & Ha & Hs & Hc & Ht & Hcompleted & Hfailed).
  - vm_compute. discriminate.
  - exists a. split; [exact Ha|]. split; [exact Hs|]. split; [exact Hc|].
    assert (Hids : track_ids a = ["t1"; "missing"]).
    { vm_compute in Ha. injection Ha as <-. reflexivity. }
    rewrite Hids in Hcompleted.
    assert (Hruns : completed_runs "downloads/temp" "mp3" (fun _ => sample_world)
                      (valid_location (Some "local")) 0 ["t1"; "missing"] = 1)
      by (vm_compute; reflexivity).
    rewrite Hruns in Hcompleted.
    assert (Ht2 : total_tracks a = 2) by (rewrite Ht; vm_compute; reflexivity).
    repeat split; try assumption. lia.
Defined.

(** ** Serving and cleaning up a staged file *)

Section ServingFacts.

Variable temp_dir_path : string.
Variables (st : State) (os : OS) (track_id filename : string).
Variable background_tasks : list BackgroundTask.

(** X15: the file is served exactly when the job is [completed], its
    file path is set and on disk, and the decoded file name is the base
    name of that path; the response then names that path, and the only
    task a request can add is the clean-up of that same path, added when
    the path lies under the temp directory or below a directory whose
    name holds [temp], and not otherwise. *)
Theorem download_file_serves_own_file :
  let response := fst (download_file temp_dir_path st os track_id filename background_tasks) in
  let scheduled := snd (download_file temp_dir_path st os track_id filename background_tasks) in
  ((exists path mt name disposition, response = FileResponse path mt name disposition)
   <-> exists job path,
         download_status st !! track_id = Some job /\ status job = "completed" /\
         file_path job = Some path /\ path <> "" /\ path ∈ files os /\
         Lib.unquote filename = Lib.basename path) /\
  (forall path mt name disposition,
     response = FileResponse path mt name disposition ->
     (exists job, download_status st !! track_id = Some job /\ file_path job = Some path) /\
     mt = "audio/mpeg" /\ name = Lib.unquote filename /\
     scheduled
     = if Py.contains temp_dir_path path || Py.contains "temp" (Lib.dirname path)
       then (background_tasks ++ [TaskCleanupTempFile path])%list
       else background_tasks).
Proof.
  cbv zeta. unfold download_file.
  destruct (download_status st !! track_id) as [job|] eqn:Hjob.
  2: { split; [split|]; [intros (? & ? & ? & ? & H) | intros (? & ? & H & _) | intros ? ? ? ? H];
       discriminate H. }
  destruct (String.eqb (status job) "completed") eqn:Hst;
    [apply String.eqb_eq in Hst | apply String.eqb_neq in Hst]; cbn [negb].
  2: { split; [split|]; [intros (? & ? & ? & ? & H) | intros (j & ? & [= <-] & H & _)
                        | intros ? ? ? ? H]; try discriminate H. contradiction. }
  destruct (file_path job) as [[|c path]|] eqn:Hpath.
  1, 3: split; [split|];
        [intros (? & ? & ? & ? & H) | intros (j & p & [= <-] & _ & Hp & Hne & _)
        | intros ? ? ? ? H]; try discriminate H;
        rewrite Hpath in Hp; try discriminate Hp; injection Hp as <-; contradiction.
  case_bool_decide as Hex; cbn [negb].
  2: { split; [split|];
       [intros (? & ? & ? & ? & H) | intros (j & p & [= <-] & _ & Hp & _ & Hin & _)
       | intros ? ? ? ? H]; try discriminate H.
       rewrite Hpath in Hp. injection Hp as <-. contradiction. }
  destruct (String.eqb (Lib.basename (String c path)) (Lib.unquote filename)) eqn:Hname;
    [apply String.eqb_eq in Hname | apply String.eqb_neq in Hname]; cbn [negb fst snd].
  - split; [split|].
    + intros _. exists job, (String c path). repeat split; auto; discriminate.
    + intros _. eexists. eexists. eexists. eexists. reflexivity.
    + intros p mt name disposition [= <- <- <- <-].
      split; [exists job; split; [reflexivity | exact Hpath]|].
      repeat split; reflexivity.
  - split; [split|]; [intros (? & ? & ? & ? & H)
                     | intros (j & p & [= <-] & _ & Hp & _ & _ & Heq) | intros ? ? ? ? H];
      try discriminate H.
    rewrite Hpath in Hp. injection Hp as <-. congruence.
Qed.

End ServingFacts.

Lemma download_file_serves_own_file_witness :
  snd (download_file "downloads/temp" staged_state staged_os "t1" "song%2Emp3" [])
  = [TaskCleanupTempFile staged_path].
Proof.
  destruct (download_file_serves_own_file "downloads/temp" staged_state staged_os
              "t1" "song%2Emp3" []) as [_ Hserved].
  assert (E : exists disposition,
             fst (download_file "downloads/temp" staged_state staged_os
                                "t1" "song%2Emp3" [])
             = FileResponse staged_path "audio/mpeg" "song.mp3" disposition)
    by (eexists; vm_compute; reflexivity).
  destruct E as [disposition E].
  destruct (Hserved _ _ _ _ E) as (_ & _ & _ & Hscheduled).
  rewrite Hscheduled. vm_compute. reflexivity.
Defined.

Lemma unquote_plain (s : string) :
  (forall c, In c (list_ascii_of_string s) -> c <> "%"%char) -> Lib.unquote s = s.
Proof.
  unfold Lib.unquote. induction s as [|c s IH]; intros H; [reflexivity|].
  cbn [Lib.unquote_skip].
  assert (Lib.escape_at (String c s) = None) as ->.
  { assert (c <> "%"%char) as Hc by (apply H; left; reflexivity).
    destruct c as [[] [] [] [] [] [] [] []]; try reflexivity. contradiction. }
  rewrite IH by (intros d Hd; apply H; right; exact Hd). reflexivity.
Qed.

Section AcceptedNames.

Variable temp_dir_path : string.
Variables (st : State) (os : OS) (track_id : string).
Variable background_tasks : list BackgroundTask.

Lemma download_file_accepts (job : JobRecord) (path filename : string) :
  download_status st !! track_id = Some job ->
  status job = "completed" ->
  file_path job = Some path -> path <> "" -> path ∈ files os ->
  (Lib.unquote filename = Lib.basename path <->
   exists disposition,
     fst (download_file temp_dir_path st os track_id filename background_tasks)
     = FileResponse path "audio/mpeg" (Lib.unquote filename) disposition).
Proof.
  intros Hjob Hst Hpath Hne Hin. unfold download_file.
  rewrite Hjob. apply String.eqb_eq in Hst. rewrite Hst, Hpath. cbn [negb].
  destruct path as [|c path]; [contradiction|].
  rewrite bool_decide_eq_true_2 by exact Hin. cbn [negb].
  destruct (String.eqb (Lib.basename (String c path)) (Lib.unquote filename)) eqn:Hname;
    [apply String.eqb_eq in Hname | apply String.eqb_neq in Hname]; cbn [negb fst].
  - split; [intros _; eexists; reflexivity | intros _; congruence].
  - split; [intros E; congruence | intros (d & E); discriminate E].
Qed.

(** X16: for a completed job whose file is on disk, the percent-encoded
    base name of the file (the name the orchestrator puts into the
    download URL) is always accepted, and the plain base name is accepted
    exactly when decoding leaves it unchanged, as it does for every name
    without a percent sign. *)
Theorem download_file_accepts_encoded_name (job : JobRecord) (path : string) :
  download_status st !! track_id = Some job ->
  status job = "completed" ->
  file_path job = Some path -> path <> "" -> path ∈ files os ->
  let served filename :=
    exists disposition,
      fst (download_file temp_dir_path st os track_id filename background_tasks)
      = FileResponse path "audio/mpeg" (Lib.basename path) disposition in
  served (Lib.quote (Lib.basename path)) /\
  (served (Lib.basename path) <-> Lib.unquote (Lib.basename path) = Lib.basename path) /\
  ((forall c, In c (list_ascii_of_string (Lib.basename path)) -> c <> "%"%char) ->
   served (Lib.basename path)).
Proof.
  intros Hjob Hst Hpath Hne Hin. cbv zeta.
  pose proof (fun f => download_file_accepts job path f Hjob Hst Hpath Hne Hin) as Hacc.
  assert (Hplain : Lib.unquote (Lib.basename path) = Lib.basename path ->
                   exists disposition,
                     fst (download_file temp_dir_path st os track_id (Lib.basename path)
                                        background_tasks)
                     = FileResponse path "audio/mpeg" (Lib.basename path) disposition).
  { intros E. destruct (proj1 (Hacc (Lib.basename path)) E) as [d Hd].
    exists d. rewrite Hd, E. reflexivity. }
  split; [|split].
  - destruct (proj1 (Hacc (Lib.quote (Lib.basename path))) (quote_round_trip _)) as [d Hd].
    exists d. rewrite Hd, quote_round_trip. reflexivity.
  - split; [|exact Hplain].
    intros [d Hd].
    destruct (String.eqb (Lib.unquote (Lib.basename path)) (Lib.basename path)) eqn:E;
      [apply String.eqb_eq, E | apply String.eqb_neq in E].
    exfalso. apply E. apply (Hacc (Lib.basename path)).
    exists d. rewrite Hd. f_equal.
    revert Hd. unfold download_file. rewrite Hjob.
    apply String.eqb_eq in Hst. rewrite Hst, Hpath. cbn [negb].
    destruct path as [|c p]; [contradiction|].
    rewrite bool_decide_eq_true_2 by exact Hin. cbn [negb].
    destruct (negb (String.eqb (Lib.basename (String c p))
                               (Lib.unquote (Lib.basename (String c p)))));
      cbn [fst]; [discriminate|]. intros [= E']. symmetry. exact E'.
  - intros Hno. apply Hplain, unquote_plain, Hno.
Qed.

End AcceptedNames.

Lemma download_file_accepts_encoded_name_witness :
  exists disposition,
    fst (download_file "downloads/temp" staged_state staged_os "t1"
                       (Lib.quote (Lib.basename staged_path)) [])
    = FileResponse staged_path "audio/mpeg" (Lib.basename staged_path) disposition.
Proof.
  assert (Hdisk : staged_path ∈ files staged_os)
    by (unfold staged_os; cbn [files]; set_solver).
  exact (proj1 (download_file_accepts_encoded_name "downloads/temp" staged_state
                  staged_os "t1" []
                  (completed "Track ready for download" staged_path
                             (Some "/api/download/file/t1?filename=song.mp3"))
                  staged_path eq_refl eq_refl eq_refl ltac:(discriminate) Hdisk)).
Defined.

Section DownloadUrlFacts.

Variables (temp_dir OUTPUT_FORMAT : string) (w : Collaborators).
Variables (track_id location : string) (video_id : option string).

(** X17: in every run, a record that carries a download URL is the
    [completed] record of a run for a target other than the library, and
    its URL is [/api/download/file/<track id>?filename=] followed by the
    percent-encoded base name of its result file; a [completed] record of
    a library run carries no URL. *)
Theorem download_url_names_result_file (r : JobRecord) :
  In r (fst (download_and_process temp_dir OUTPUT_FORMAT w track_id location video_id)) ->
  (forall u, download_url r = Some u ->
     status r = "completed" /\ String.eqb location "navidrome" = false /\
     exists path,
       file_path r = Some path /\
       u = ("/api/download/file/" ++ track_id ++ "?filename="
            ++ Lib.quote (Lib.basename path))%string) /\
  (status r = "completed" ->
   (download_url r = None <-> String.eqb location "navidrome" = true)).
Proof.
  orchestrate; intros Hr; cbn [In] in Hr;
    repeat (destruct Hr as [<- | Hr];
            [split;
             [intros u Hu; cbn in Hu; try discriminate Hu;
              injection Hu as <-; repeat split; eexists; split; reflexivity
             |intros Hs; try discriminate Hs; split; intros H;
              (reflexivity || discriminate H)]|]);
    contradiction.
Qed.

End DownloadUrlFacts.

Lemma download_url_names_result_file_witness :
  status (last (fst (download_and_process "downloads/temp" "mp3" sample_world
                                          "t1" "local" None)) (failed ""))
  = "completed" /\
  download_url (last (fst (download_and_process "downloads/temp" "mp3" sample_world
                                                "t1" "local" None)) (failed ""))
  = Some "/api/download/file/t1?filename=Shape%20of%20You.mp3".
Proof.
  assert (Hu : download_url
                 (last (fst (download_and_process "downloads/temp" "mp3" sample_world
                                                  "t1" "local" None)) (failed ""))
               = Some "/api/download/file/t1?filename=Shape%20of%20You.mp3")
    by (vm_compute; reflexivity).
  destruct (download_url_names_result_file "downloads/temp" "mp3" sample_world
              "t1" "local" None
              (last (fst (download_and_process "downloads/temp" "mp3" sample_world
                                               "t1" "local" None)) (failed "")))
    as [Hurl _].
  - vm_compute. do 4 right. left. reflexivity.
  - destruct (Hurl _ Hu) as (Hs & _). split; [exact Hs | exact Hu].
Defined.


(** * The similarity ratio *)

Section MatcherWindow.

Variables (a b : list ascii) (alo ahi blo bhi : nat).
Hypothesis Ha : (alo <= ahi)%nat.
Hypothesis Hb : (blo <= bhi)%nat.

Lemma j2len_get_ok (bound : nat) (j2len : list (nat * nat)) (j : nat) :
  row_ok alo blo bound j2len ->
  Difflib.j2len_get j2len j = 0%nat \/
  (Difflib.j2len_get j2len j + blo <= j + 1
   /\ Difflib.j2len_get j2len j + alo <= bound)%nat.
Proof.
  intros Hrow. unfold Difflib.j2len_get.
  destruct (find (fun p => (fst p =? j)%nat) j2len) as [p|] eqn:E; [|left; reflexivity].
  apply find_some in E. destruct E as [Hin Hj]. apply Nat.eqb_eq in Hj.
  unfold row_ok in Hrow. rewrite Forall_forall in Hrow.
  right. destruct (Hrow p Hin) as (_ & H1 & H2). subst j. split; assumption.
Qed.

Lemma scan_row_ok (i : nat) (prev : list (nat * nat)) (js : list nat) :
  (alo <= i < ahi)%nat -> row_ok alo blo i prev ->
  forall acc best,
    row_ok alo blo (i + 1) acc -> in_window alo ahi blo bhi best ->
    row_ok alo blo (i + 1)
      (fst (fold_left
              (fun st j =>
                 let '(newj2len, (besti, bestj, bestsize)) := st in
                 if (j <? blo)%nat || (bhi <=? j)%nat then st
                 else
                   let k := (match j with
                             | O => 0
                             | S j' => Difflib.j2len_get prev j'
                             end + 1)%nat in
                   ((j, k) :: newj2len,
                    if (bestsize <? k)%nat then (i + 1 - k, j + 1 - k, k)%nat
                    else (besti, bestj, bestsize)))
              js (acc, best))) /\
    in_window alo ahi blo bhi
      (snd (fold_left
              (fun st j =>
                 let '(newj2len, (besti, bestj, bestsize)) := st in
                 if (j <? blo)%nat || (bhi <=? j)%nat then st
                 else
                   let k := (match j with
                             | O => 0
                             | S j' => Difflib.j2len_get prev j'
                             end + 1)%nat in
                   ((j, k) :: newj2len,
                    if (bestsize <? k)%nat then (i + 1 - k, j + 1 - k, k)%nat
                    else (besti, bestj, bestsize)))
              js (acc, best))).
Proof.
  intros Hi Hprev. induction js as [|j js IH]; intros acc best Hacc Hbest.
  - cbn [fold_left fst snd]. split; assumption.
  - cbn [fold_left]. destruct best as [[besti bestj] bestsize].
    destruct ((j <? blo)%nat || (bhi <=? j)%nat) eqn:Hout; [apply IH; assumption|].
    apply orb_false_iff in Hout. destruct Hout as [Hlo Hhi].
    apply Nat.ltb_ge in Hlo. apply Nat.leb_gt in Hhi.
    set (k := (match j with O => 0 | S j' => Difflib.j2len_get prev j' end + 1)%nat).
    assert (Hk : (k + blo <= j + 1 /\ k + alo <= i + 1 /\ 1 <= k)%nat).
    { subst k. destruct j as [|j']; [lia|].
      destruct (j2len_get_ok i prev j' Hprev) as [-> | [H1 H2]]; lia. }
    apply IH.
    + constructor; [cbn [fst snd]; lia | exact Hacc].
    + destruct (bestsize <? k)%nat; [|exact Hbest].
      unfold in_window. lia.
Qed.

Lemma scan_rows_ok (n : nat) :
  forall start st,
    (alo <= start)%nat -> (start + n <= ahi)%nat ->
    row_ok alo blo start (fst st) -> in_window alo ahi blo bhi (snd st) ->
    in_window alo ahi blo bhi
      (snd (fold_left
              (fun st i =>
                 let '(j2len, best) := st in
                 Difflib.scan_row i blo bhi j2len (Difflib.b2j b (Difflib.char_at a i)) best)
              (seq start n) st)).
Proof.
  induction n as [|n IH]; intros start [j2len best] Hs Hn Hrow Hbest.
  - exact Hbest.
  - cbn [seq fold_left]. cbn [fst snd] in Hrow, Hbest.
    destruct (scan_row_ok start j2len (Difflib.b2j b (Difflib.char_at a start))
                ltac:(lia) Hrow [] best) as [Hrow' Hbest'].
    { constructor. }
    { exact Hbest. }
    apply IH; try lia.
    + replace (S start) with (start + 1)%nat by lia. exact Hrow'.
    + exact Hbest'.
Qed.

Lemma extend_left_ok (fuel : nat) (m : nat * nat * nat) :
  in_window alo ahi blo bhi m ->
  in_window alo ahi blo bhi (Difflib.extend_left fuel a b alo blo m).
Proof.
  revert m. induction fuel as [|fuel IH]; intros [[i j] k] Hm; [exact Hm|].
  cbn [Difflib.extend_left].
  destruct ((alo <? i)%nat && (blo <? j)%nat
            && Ascii.eqb (Difflib.char_at a (i - 1)) (Difflib.char_at b (j - 1))) eqn:E;
    [|exact Hm].
  apply andb_prop in E. destruct E as [E _]. apply andb_prop in E.
  destruct E as [E1 E2]. apply Nat.ltb_lt in E1. apply Nat.ltb_lt in E2.
  apply IH. unfold in_window in *. lia.
Qed.

Lemma extend_right_ok (fuel : nat) (m : nat * nat * nat) :
  in_window alo ahi blo bhi m ->
  in_window alo ahi blo bhi (Difflib.extend_right fuel a b ahi bhi m).
Proof.
  revert m. induction fuel as [|fuel IH]; intros [[i j] k] Hm; [exact Hm|].
  cbn [Difflib.extend_right].
  destruct ((i + k <? ahi)%nat && (j + k <? bhi)%nat
            && Ascii.eqb (Difflib.char_at a (i + k)) (Difflib.char_at b (j + k))) eqn:E;
    [|exact Hm].
  apply andb_prop in E. destruct E as [E _]. apply andb_prop in E.
  destruct E as [E1 E2]. apply Nat.ltb_lt in E1. apply Nat.ltb_lt in E2.
  apply IH. unfold in_window in *. lia.
Qed.

Lemma find_longest_match_in_window :
  in_window alo ahi blo bhi (Difflib.find_longest_match a b alo ahi blo bhi).
Proof.
  unfold Difflib.find_longest_match.
  pose proof (scan_rows_ok (ahi - alo) alo ([], (alo, blo, 0%nat))
                ltac:(lia) ltac:(lia) ltac:(constructor)
                ltac:(unfold in_window; cbn; lia)) as H.
  destruct (fold_left _ (seq alo (ahi - alo)) ([], (alo, blo, 0%nat))) as [j2len best].
  cbn [snd] in H. apply extend_right_ok, extend_left_ok, H.
Qed.

End MatcherWindow.

Lemma matches_in_window (a b : list ascii) (fuel : nat) :
  forall alo ahi blo bhi,
    (alo <= ahi)%nat -> (blo <= bhi)%nat ->
    (Difflib.matches fuel a b alo ahi blo bhi <= ahi - alo
     /\ Difflib.matches fuel a b alo ahi blo bhi <= bhi - blo)%nat.
Proof.
  induction fuel as [|fuel IH]; intros alo ahi blo bhi Ha Hb.
  - cbn [Difflib.matches]. lia.
  - cbn [Difflib.matches].
    pose proof (find_longest_match_in_window a b alo ahi blo bhi Ha Hb) as Hw.
    destruct (Difflib.find_longest_match a b alo ahi blo bhi) as [[i j] k].
    unfold in_window in Hw. destruct Hw as (H1 & H2 & H3 & H4).
    destruct (k =? 0)%nat; [lia|].
    assert (HL : ((if (alo <? i)%nat && (blo <? j)%nat
                   then Difflib.matches fuel a b alo i blo j else 0) <= i - alo
                  /\ (if (alo <? i)%nat && (blo <? j)%nat
                      then Difflib.matches fuel a b alo i blo j else 0) <= j - blo)%nat).
    { destruct ((alo <? i)%nat && (blo <? j)%nat); [apply IH; lia | lia]. }
    assert (HR : ((if (i + k <? ahi)%nat && (j + k <? bhi)%nat
                   then Difflib.matches fuel a b (i + k) ahi (j + k) bhi else 0)
                  <= ahi - (i + k)
                  /\ (if (i + k <? ahi)%nat && (j + k <? bhi)%nat
                      then Difflib.matches fuel a b (i + k) ahi (j + k) bhi else 0)
                     <= bhi - (j + k))%nat).
    { destruct ((i + k <? ahi)%nat && (j + k <? bhi)%nat); [apply IH; lia | lia]. }
    lia.
Qed.

Lemma ratio_unit (sa sb : string) : (0 <= Difflib.ratio sa sb <= 1)%Q.
Proof.
  unfold Difflib.ratio.
  set (a := list_ascii_of_string sa). set (b := list_ascii_of_string sb).
  destruct (matches_in_window a b (S (length a)) 0 (length a) 0 (length b)
              ltac:(lia) ltac:(lia)) as [H1 H2].
  destruct (length a + length b)%nat as [|t] eqn:Ht.
  - split; unfold Qle; cbn; lia.
  - split; unfold Qle; cbn [Qnum Qden]; rewrite ?Zpos_P_of_succ_nat; lia.
Qed.

Lemma matches_of_empty_left (b : list ascii) (fuel bhi : nat) :
  Difflib.matches fuel [] b 0 0 0 bhi = 0%nat.
Proof.
  destruct (matches_in_window [] b fuel 0 0 0 bhi ltac:(lia) ltac:(lia)) as [H _].
  lia.
Qed.

Lemma matches_of_empty_right (a : list ascii) (fuel ahi : nat) :
  Difflib.matches fuel a [] 0 ahi 0 0 = 0%nat.
Proof.
  destruct (matches_in_window a [] fuel 0 ahi 0 0 ltac:(lia) ltac:(lia)) as [_ H].
  lia.
Qed.

Lemma length_list_ascii (s : string) :
  length (list_ascii_of_string s) = String.length s.
Proof. induction s as [|c s IH]; cbn; [reflexivity | f_equal; exact IH]. Qed.

(** X19: the similarity of two strings lies in [0, 1]; two strings that are
    blank after lower-casing and stripping are fully similar, and a blank
    string has similarity 0 to any string that is not blank. *)
Theorem calculate_similarity_unit_and_blank (str1 str2 : string) :
  (0 <= calculate_similarity str1 str2 <= 1)%Q /\
  (Py.strip (Py.lower str1) = "" -> Py.strip (Py.lower str2) = "" ->
   calculate_similarity str1 str2 = 1%Q) /\
  (Py.strip (Py.lower str1) = "" -> Py.strip (Py.lower str2) <> "" ->
   (calculate_similarity str1 str2 == 0)%Q) /\
  (Py.strip (Py.lower str1) <> "" -> Py.strip (Py.lower str2) = "" ->
   (calculate_similarity str1 str2 == 0)%Q).
Proof.
  unfold calculate_similarity. split; [apply ratio_unit|].
  split; [|split].
  - intros -> ->. reflexivity.
  - intros -> Hne. unfold Difflib.ratio.
    destruct (Py.strip (Py.lower str2)) as [|c s]; [contradiction|].
    cbn [list_ascii_of_string length Nat.add].
    rewrite matches_of_empty_left. reflexivity.
  - intros Hne ->. unfold Difflib.ratio.
    destruct (Py.strip (Py.lower str1)) as [|c s]; [contradiction|].
    cbn [list_ascii_of_string length Nat.add].
    rewrite matches_of_empty_right. reflexivity.
Qed.

Lemma calculate_similarity_unit_and_blank_witness :
  (calculate_similarity "  " "" = 1%Q) /\
  (calculate_similarity " " "Shape of You" == 0)%Q /\
  (calculate_similarity "Shape of You" " " == 0)%Q.
Proof.
  split; [|split].
  - apply (proj1 (proj2 (calculate_similarity_unit_and_blank "  " ""))); reflexivity.
  - apply (proj1 (proj2 (proj2 (calculate_similarity_unit_and_blank " " "Shape of You"))));
      [reflexivity | vm_compute; discriminate].
  - apply (proj2 (proj2 (proj2 (calculate_similarity_unit_and_blank "Shape of You" " "))));
      [vm_compute; discriminate | reflexivity].
Defined.

(** * Properties of the earlier scorer *)

Lemma contains_empty (s : string) : Py.contains "" s = true.
Proof. destruct s; reflexivity. Qed.

Lemma calculate_similarity_unit (str1 str2 : string) :
  (0 <= calculate_similarity str1 str2 <= 1)%Q.
Proof. unfold calculate_similarity. apply ratio_unit. Qed.

Lemma old_title_sim_unit (youtube_title track_name : string) :
  (0 <= ScoringOld.title_sim youtube_title track_name <= 1)%Q.
Proof.
  unfold ScoringOld.title_sim. cbv zeta.
  pose proof (calculate_similarity_unit (ScoringOld.clean_title youtube_title)
                                        (Py.lower track_name)) as [H0 H1].
  destruct (Py.contains _ _); [|split; assumption].
  split.
  - apply Qle_trans with (calculate_similarity (ScoringOld.clean_title youtube_title)
                                               (Py.lower track_name));
      [exact H0 | apply Q.le_max_l].
  - apply Q.max_lub; [exact H1 | unfold Qle; cbn; lia].
Qed.

Lemma old_artist_sim_unit (youtube_title youtube_channel artist : string) :
  (0 <= ScoringOld.artist_sim youtube_title youtube_channel artist <= 1)%Q.
Proof.
  unfold ScoringOld.artist_sim.
  pose proof (calculate_similarity_unit (Py.lower youtube_channel)
                                        (ScoringOld.main_artist artist)) as [H0 H1].
  pose proof (calculate_similarity_unit (ScoringOld.clean_title youtube_title)
                                        (ScoringOld.main_artist artist)) as [H2 H3].
  split.
  - apply Qle_trans with (calculate_similarity (Py.lower youtube_channel)
                                               (ScoringOld.main_artist artist));
      [exact H0 | apply Q.le_max_l].
  - apply Q.max_lub; assumption.
Qed.

Lemma Qmin_one_cases (x : Q) : (Qmin x 1 == x /\ x <= 1)%Q \/ (Qmin x 1 == 1 /\ 1 <= x)%Q.
Proof.
  destruct (Qlt_le_dec 1 x) as [H | H].
  - right. split; [apply Q.min_r, Qlt_le_weak, H | apply Qlt_le_weak, H].
  - left. split; [apply Q.min_l, H | exact H].
Qed.

Lemma calculate_match_score_unit
    (youtube_title youtube_channel track_name artist : string) :
  (0 <= ScoringOld.calculate_match_score youtube_title youtube_channel
                                         track_name artist <= 1)%Q.
Proof.
  unfold ScoringOld.calculate_match_score. cbv zeta.
  pose proof (old_title_sim_unit youtube_title track_name) as [Ht0 Ht1].
  pose proof (old_artist_sim_unit youtube_title youtube_channel artist) as [Ha0 Ha1].
  set (t := ScoringOld.title_sim youtube_title track_name) in *.
  set (a := ScoringOld.artist_sim youtube_title youtube_channel artist) in *.
  split; [|apply Q.le_min_r].
  destruct (ScoringOld.artist_found youtube_title youtube_channel artist);
    cbn [negb andb].
  - destruct (Qmin_one_cases (t * 0.5 + a * 0.35 + 0.15)) as [[-> _] | [-> _]]; lra.
  - destruct (Qle_bool 0.5 a).
    + destruct (Qmin_one_cases (t * 0.5 + a * 0.35 + 0)) as [[-> _] | [-> _]]; lra.
    + destruct (Qmin_one_cases (t * 0.4)) as [[-> _] | [-> _]]; lra.
Qed.

(** X20: the score of the earlier scorer lies in [0, 1].  A candidate in
    which the main artist occurs neither in the cleaned title nor in the
    channel scores at most 0.85, and at most 0.4 (below the confidence
    threshold) when moreover its artist similarity is below 0.5.  A
    candidate in which the main artist occurs scores at least 0.15, and
    at least 0.55 when the track name occurs in its cleaned title.  An
    empty artist occurs in every candidate. *)
Theorem calculate_match_score_artist_gate
    (youtube_title youtube_channel track_name artist : string) :
  let s := ScoringOld.calculate_match_score youtube_title youtube_channel
                                            track_name artist in
  let found := ScoringOld.artist_found youtube_title youtube_channel artist in
  (0 <= s <= 1)%Q /\
  (found = false -> (s <= 0.85)%Q) /\
  (found = false ->
   (ScoringOld.artist_sim youtube_title youtube_channel artist < 0.5)%Q ->
   (s <= 0.4)%Q /\ (s < CONFIDENCE_THRESHOLD)%Q) /\
  (found = true -> (0.15 <= s)%Q) /\
  (found = true ->
   Py.contains (Py.lower track_name) (ScoringOld.clean_title youtube_title) = true ->
   (0.55 <= s)%Q) /\
  ScoringOld.artist_found youtube_title youtube_channel "" = true.
Proof.
  cbv zeta. split; [apply calculate_match_score_unit|].
  unfold ScoringOld.calculate_match_score. cbv zeta.
  pose proof (old_title_sim_unit youtube_title track_name) as [Ht0 Ht1].
  pose proof (old_artist_sim_unit youtube_title youtube_channel artist) as [Ha0 Ha1].
  assert (Hfloor : Py.contains (Py.lower track_name) (ScoringOld.clean_title youtube_title)
                   = true ->
                   (0.8 <= ScoringOld.title_sim youtube_title track_name)%Q).
  { intros Hc. unfold ScoringOld.title_sim. cbv zeta. rewrite Hc. apply Q.le_max_r. }
  set (t := ScoringOld.title_sim youtube_title track_name) in *.
  set (a := ScoringOld.artist_sim youtube_title youtube_channel artist) in *.
  set (found := ScoringOld.artist_found youtube_title youtube_channel artist).
  assert (Hlow : (a < 0.5)%Q -> Qle_bool 0.5 a = false).
  { intros Hlt. destruct (Qle_bool 0.5 a) eqn:E; [|reflexivity].
    apply Qle_bool_iff in E. lra. }
  refine (conj _ (conj _ (conj _ (conj _ _)))).
  - intros Hf. rewrite Hf. cbn [negb andb].
    destruct (Qle_bool 0.5 a).
    + destruct (Qmin_one_cases (t * 0.5 + a * 0.35 + 0)) as [[-> _] | [_ H]]; lra.
    + destruct (Qmin_one_cases (t * 0.4)) as [[-> _] | [_ H]]; lra.
  - intros Hf Hlt. rewrite Hf. cbn [negb andb]. rewrite (Hlow Hlt).
    unfold CONFIDENCE_THRESHOLD.
    destruct (Qmin_one_cases (t * 0.4)) as [[-> _] | [_ H]]; split; lra.
  - intros Hf. rewrite Hf. cbn [negb andb].
    destruct (Qmin_one_cases (t * 0.5 + a * 0.35 + 0.15)) as [[-> _] | [-> _]]; lra.
  - intros Hf Hc. rewrite Hf. cbn [negb andb]. specialize (Hfloor Hc).
    destruct (Qmin_one_cases (t * 0.5 + a * 0.35 + 0.15)) as [[-> _] | [-> _]]; lra.
  - unfold ScoringOld.artist_found. cbv zeta.
    replace (ScoringOld.main_artist "") with "" by reflexivity.
    rewrite contains_empty. reflexivity.
Qed.

Lemma calculate_match_score_artist_gate_witness :
  (ScoringOld.calculate_match_score "Shape of You (Official)" "Boyce Avenue"
                                    "Shape of You" "Ed Sheeran, Someone"
   < CONFIDENCE_THRESHOLD)%Q /\
  (0.55 <= ScoringOld.calculate_match_score "Ed Sheeran - Shape of You" "Ed Sheeran"
                                            "Shape of You" "Ed Sheeran")%Q.
Proof.
  split.
  - apply (proj1 (proj2 (proj2 (calculate_match_score_artist_gate
                                  "Shape of You (Official)" "Boyce Avenue"
                                  "Shape of You" "Ed Sheeran, Someone")))).
    + vm_compute. reflexivity.
    + vm_compute. reflexivity.
  - apply (proj1 (proj2 (proj2 (proj2 (proj2 (calculate_match_score_artist_gate
                                  "Ed Sheeran - Shape of You" "Ed Sheeran"
                                  "Shape of You" "Ed Sheeran")))))).
    + vm_compute. reflexivity.
    + vm_compute. reflexivity.
Defined.




